(** * Colour detection and remapping engine of the Canvas re-brander

    Shallow embedding of [src/app.py], lines 24-164: the palette table
    [COLOR_MAP], the three reverse indices of [build_color_maps], and
    [replace_colors] with its callback [replace_color] driven by
    [re.sub(r'#[0-9a-fA-F]{6}', replace_color, html_content,
    flags=re.IGNORECASE)].

    Python values are modelled as follows.
    - [str] is [string].  The pattern and the callback only ever look at
      ['#'] and the ASCII hexadecimal digits, and every other character is
      copied; a non-ASCII character is a run of bytes above 127 here and is
      copied just the same.
    - The dict [COLOR_MAP] is an association list in insertion order
      (the order [.items()] iterates in); its keys are unique, as the keys
      of a dict are.
    - The dicts built by the comprehensions of [build_color_maps] are
      [gmap string string]; a later item overwrites an earlier one with the
      same key.
    - The list [changes], which the closure [replace_color] appends to, is
      passed in and out of the callback explicitly.
    - [COLOR_MAP[target_college]] raises [KeyError] on a missing key: the
      result type has a constructor for it. *)

From Stdlib Require Import Ascii.
From stdpp Require Import gmap strings list.

(** ** Characters and strings *)

(** [str.lower()] on ASCII: the letters [A]-[Z] go to [a]-[z]. *)
Definition ascii_lower (c : ascii) : ascii :=
  let n := nat_of_ascii c in
  if (65 <=? n)%nat && (n <=? 90)%nat then ascii_of_nat (n + 32) else c.

Fixpoint lower (s : string) : string :=
  match s with
  | EmptyString => EmptyString
  | String c s' => String (ascii_lower c) (lower s')
  end.

(** The class [[0-9a-fA-F]]. *)
Definition hexdigit (c : ascii) : bool :=
  let n := nat_of_ascii c in
  ((48 <=? n)%nat && (n <=? 57)%nat)
  || ((97 <=? n)%nat && (n <=? 102)%nat)
  || ((65 <=? n)%nat && (n <=? 70)%nat).

Definition is_hash (c : ascii) : bool := Ascii.eqb c "#"%char.

(** ** [re.sub] with a callable replacement

    [re.sub] walks the subject from left to right.  Where the pattern
    matches it hands the match to the callback and resumes right after the
    match; elsewhere it copies one character and moves on.  The pattern
    [#[0-9a-fA-F]{6}] matches exactly seven characters, so the walk is
    structural: the recursive call is on the tail behind the seven. *)
Inductive piece : Type :=
  | Lit (c : ascii)          (* a character outside every match *)
  | Matched (m : string).    (* [match.group(0)] of one match *)

Fixpoint scan (s : string) : list piece :=
  match s with
  | EmptyString => []
  | String c0 s' =>
      match s' with
      | String c1 (String c2 (String c3 (String c4 (String c5 (String c6 rest))))) =>
          if is_hash c0 && hexdigit c1 && hexdigit c2 && hexdigit c3
             && hexdigit c4 && hexdigit c5 && hexdigit c6
          then Matched (String c0 (String c1 (String c2 (String c3
                 (String c4 (String c5 (String c6 EmptyString)))))))
               :: scan rest
          else Lit c0 :: scan s'
      | _ => Lit c0 :: scan s'
      end
  end.

(** The callback may change a state of type [S] (here: the list
    [changes]); the matches are handed over in scan order. *)
Fixpoint sub_pieces {S : Type} (repl : string → S → string * S)
    (ps : list piece) (st : S) : string * S :=
  match ps with
  | [] => (EmptyString, st)
  | Lit c :: ps' =>
      let '(out, st') := sub_pieces repl ps' st in (String c out, st')
  | Matched m :: ps' =>
      let '(r, st1) := repl m st in
      let '(out, st2) := sub_pieces repl ps' st1 in
      (r +:+ out, st2)
  end.

Definition re_sub {S : Type} (repl : string → S → string * S)
    (s : string) (st : S) : string * S :=
  sub_pieces repl (scan s) st.

(** The matches among the pieces. *)
Definition tokens (ps : list piece) : list string :=
  omap (λ p, match p with Matched m => Some m | Lit _ => None end) ps.

(** The matches of the pattern in [s], in the order [re.sub] visits them. *)
Definition matches (s : string) : list string := tokens (scan s).


(** ** The palette table *)

Record Palette : Type := {
  primary : string;
  secondary : string;
  accent : string;
  full_name : string
}.

(** A dict with string keys, in insertion order. *)
Definition dict (V : Type) : Type := list (string * V).

(** [d[k]]: [None] stands for [KeyError]. *)
Fixpoint getitem {V : Type} (d : dict V) (k : string) : option V :=
  match d with
  | [] => None
  | (k', v) :: d' => if decide (k' = k) then Some v else getitem d' k
  end.

(** [{v[role].lower(): k for k, v in table.items()}] *)
Definition build_index (role : Palette → string) (table : dict Palette)
    : gmap string string :=
  foldl (λ idx kv, <[lower (role kv.2) := kv.1]> idx) ∅ table.

(** What [replace_colors] returns, or the exception it raises. *)
Inductive result : Type :=
  | Ok (updated_html : string) (changes : list string)
  | KeyError (key : string).

(** The three roles a colour can play for an institution. *)
Inductive Role : Type := RPrimary | RSecondary | RAccent.

Definition role_color (r : Role) : Palette → string :=
  match r with
  | RPrimary => primary
  | RSecondary => secondary
  | RAccent => accent
  end.

Definition role_tag (r : Role) : string :=
  match r with
  | RPrimary => "Primary"
  | RSecondary => "Secondary"
  | RAccent => "Accent"
  end.

(** The roles the callback tries before [r]. *)
Definition earlier_roles (r : Role) : list Role :=
  match r with
  | RPrimary => []
  | RSecondary => [RPrimary]
  | RAccent => [RPrimary; RSecondary]
  end.

Section Rewriter.
(** The module-level table.  The functions below read it as the source
    reads its global; [LACCD_COLOR_MAP] further down is the value the
    source binds it to. *)
Variable COLOR_MAP : dict Palette.

Definition build_color_maps
    : gmap string string * gmap string string * gmap string string :=
  let all_primaries := build_index primary COLOR_MAP in
  let all_secondaries := build_index secondary COLOR_MAP in
  let all_accents := build_index accent COLOR_MAP in
  (all_primaries, all_secondaries, all_accents).

Definition ALL_PRIMARIES : gmap string string := build_color_maps.1.1.
Definition ALL_SECONDARIES : gmap string string := build_color_maps.1.2.
Definition ALL_ACCENTS : gmap string string := build_color_maps.2.

(** The index of a role, by role. *)
Definition role_index (r : Role) : gmap string string :=
  match r with
  | RPrimary => ALL_PRIMARIES
  | RSecondary => ALL_SECONDARIES
  | RAccent => ALL_ACCENTS
  end.

(** The closure [replace_color] of [replace_colors]; [m] is
    [match.group(0)], and [changes] goes in and comes out. *)
Definition replace_color (target_college : string) (target_colors : Palette)
    (replace_all : bool) (m : string) (changes : list string)
    : string * list string :=
  let color := lower m in
  if decide (color = lower (primary target_colors)) then (m, changes)
  else if decide (color = lower (secondary target_colors)) then (m, changes)
  else if decide (color = lower (accent target_colors)) then (m, changes)
  else if replace_all then
    (primary target_colors,
     changes ++ ["Color: " +:+ color +:+ " -> " +:+ primary target_colors])
  else
    match ALL_PRIMARIES !! color with
    | Some source_college =>
        if decide (source_college ≠ target_college) then
          (primary target_colors,
           changes ++ ["Primary: " +:+ color +:+ " (" +:+ source_college
                       +:+ ") -> " +:+ primary target_colors])
        else (m, changes)
    | None =>
        match ALL_SECONDARIES !! color with
        | Some source_college =>
            if decide (source_college ≠ target_college) then
              (secondary target_colors,
               changes ++ ["Secondary: " +:+ color +:+ " (" +:+ source_college
                           +:+ ") -> " +:+ secondary target_colors])
            else (m, changes)
        | None =>
            match ALL_ACCENTS !! color with
            | Some source_college =>
                if decide (source_college ≠ target_college) then
                  (accent target_colors,
                   changes ++ ["Accent: " +:+ color +:+ " (" +:+ source_college
                               +:+ ") -> " +:+ accent target_colors])
                else (m, changes)
            | None => (m, changes)
            end
        end
    end.

Definition replace_colors (html_content : string) (target_college : string)
    (replace_all : bool) : result :=
  if decide (html_content = EmptyString) then Ok html_content []
  else
    match getitem COLOR_MAP target_college with
    | None => KeyError target_college
    | Some target_colors =>
        let '(updated_html, changes) :=
          re_sub (replace_color target_college target_colors replace_all)
                 html_content [] in
        Ok updated_html changes
    end.
End Rewriter.

(** The table of the source: the district and its nine colleges. *)
Definition LACCD_COLOR_MAP : dict Palette := [
  ("LACCD (District)",
   {| primary := "#005a95"; secondary := "#00345f"; accent := "#bb9e6d";
      full_name := "Los Angeles Community College District" |});
  ("ELAC (East LA)",
   {| primary := "#447D29"; secondary := "#33511D"; accent := "#FDB913";
      full_name := "East Los Angeles College" |});
  ("LACC (LA City)",
   {| primary := "#C13C40"; secondary := "#305589"; accent := "#112844";
      full_name := "Los Angeles City College" |});
  ("LAHC (LA Harbor)",
   {| primary := "#5F7FE2"; secondary := "#002663"; accent := "#FFC72C";
      full_name := "Los Angeles Harbor College" |});
  ("LAMC (LA Mission)",
   {| primary := "#004590"; secondary := "#FF611A"; accent := "#718089";
      full_name := "Los Angeles Mission College" |});
  ("LAPC (LA Pierce)",
   {| primary := "#BF2116"; secondary := "#1F1F1F"; accent := "#FFFFFF";
      full_name := "Los Angeles Pierce College" |});
  ("LASC (LA Southwest)",
   {| primary := "#C5B358"; secondary := "#000000"; accent := "#FFFFFF";
      full_name := "Los Angeles Southwest College" |});
  ("LATTC (LA Trade-Tech)",
   {| primary := "#562c82"; secondary := "#1c1c1c"; accent := "#aea4eb";
      full_name := "Los Angeles Trade-Technical College" |});
  ("LAVC (LA Valley)",
   {| primary := "#00593F"; secondary := "#FFC72C"; accent := "#FFFFFF";
      full_name := "Los Angeles Valley College" |});
  ("WLAC (West LA)",
   {| primary := "#4169E1"; secondary := "#003594"; accent := "#FFD700";
      full_name := "West Los Angeles College" |})
].

(** The two-institution table of the scenarios in the specification. *)
Definition scenario_table : dict Palette := [
  ("A", {| primary := "#111111"; secondary := "#222222"; accent := "#333333";
           full_name := "Institution A" |});
  ("B", {| primary := "#aaaaaa"; secondary := "#bbbbbb"; accent := "#cccccc";
           full_name := "Institution B" |})
].

(** ** Derived notions used to state the properties *)

(** [s] begins with [n] hexadecimal digits. *)
Fixpoint hexrun (n : nat) (s : string) : bool :=
  match n with
  | O => true
  | S n' =>
      match s with
      | EmptyString => false
      | String c s' => hexdigit c && hexrun n' s'
      end
  end.

(** The pattern matches at the very start of [s]. *)
Definition starts_token (s : string) : bool :=
  match s with
  | EmptyString => false
  | String c s' => is_hash c && hexrun 6 s'
  end.

(** [m] is one whole colour token: ['#'] and six hexadecimal digits. *)
Definition hex_token (m : string) : bool :=
  starts_token m && bool_decide (String.length m = 7).

(** The canonical colour [c] is one of the three colours of [p]. *)
Definition own_color (p : Palette) (c : string) : Prop :=
  c = lower (primary p) ∨ c = lower (secondary p) ∨ c = lower (accent p).

(** The three role colours of a palette are colour tokens. *)
Definition palette_wf (p : Palette) : Prop :=
  hex_token (primary p) = true ∧ hex_token (secondary p) = true
  ∧ hex_token (accent p) = true.

(** The change record of a role substitution, as the f-strings build it. *)
Definition role_record (r : Role) (color source new : string) : string :=
  role_tag r +:+ ": " +:+ color +:+ " (" +:+ source +:+ ") -> " +:+ new.

(** The pieces put back together, every match standing for itself. *)
Fixpoint join (ps : list piece) : string :=
  match ps with
  | [] => EmptyString
  | Lit c :: ps' => String c (join ps')
  | Matched m :: ps' => m +:+ join ps'
  end.

(** The pieces with every match replaced by [g] of it. *)
Definition subst_pieces (g : string → string) (ps : list piece) : list piece :=
  (λ p, match p with Matched m => Matched (g m) | Lit c => Lit c end) <$> ps.

(** Two pieces that are equal up to letter case. *)
Definition piece_ci (p q : piece) : Prop :=
  match p, q with
  | Lit c, Lit d => ascii_lower c = ascii_lower d
  | Matched m, Matched n => lower m = lower n
  | _, _ => False
  end.

(** ** The set of known colours

    [get_all_source_colors] of [src/app.py]: a set that receives the three
    lowercased colours of every value of the table, in table order. *)
Section Detection.
Variable COLOR_MAP : dict Palette.

Definition get_all_source_colors : gset string :=
  foldl (λ colors kv,
           let college_data := kv.2 in
           colors ∪ {[lower (primary college_data)]}
                  ∪ {[lower (secondary college_data)]}
                  ∪ {[lower (accent college_data)]})
        ∅ COLOR_MAP.

Definition ALL_SOURCE_COLORS : gset string := get_all_source_colors.
End Detection.

#[global] Instance own_color_dec p c : Decision (own_color p c).
Proof. unfold own_color. apply _. Defined.

(** A piece of the output stands where a piece of the input stood: a copied
    character is the same character, a match has become a match. *)
Definition piece_same_place (p q : piece) : Prop :=
  match p, q with
  | Lit c, Lit d => c = d
  | Matched _, Matched _ => True
  | _, _ => False
  end.

(** ** Authentication ([src/auth.py])

    Python values are modelled only as far as the code looks into them:
    [None], booleans, strings and dicts with string keys; every other
    object (a number, a list, ...) is an [obj], of which the code can only
    take the truth value.  The session state of Streamlit is a finite map
    from names to values, [os.environ] a finite map from names to strings,
    and [requests.post] a function from the request to what the call
    returns or raises. *)
Inductive exn : Type :=
  | AttributeError
  | External (request_exception : bool) (message : string).

Inductive outcome (A : Type) : Type :=
  | Returns (a : A)
  | Raises (e : exn).
Arguments Returns {A} a.
Arguments Raises {A} e.

#[global] Instance outcome_bind : MBind outcome :=
  λ A B f m, match m with Returns a => f a | Raises e => Raises e end.

(** [try: body except requests.RequestException as e: handler(e)] *)
Definition except_request_exception {A : Type}
    (body : outcome A) (handler : string → outcome A) : outcome A :=
  match body with
  | Raises (External true message) => handler message
  | other => other
  end.

Definition FIREBASE_AUTH_URL : string :=
  "https://identitytoolkit.googleapis.com/v1/accounts".

Section Auth.
Variable obj : Type.
Variable obj_truthy : obj → bool.

#[local] Set Warnings "-register-all".
Inductive pyval : Type :=
  | PNone
  | PBool (b : bool)
  | PStr (s : string)
  | PDict (items : list (string * pyval))
  | POther (o : obj).

(** [bool(v)] *)
Definition truthy (v : pyval) : bool :=
  match v with
  | PNone => false
  | PBool b => b
  | PStr s => negb (bool_decide (s = EmptyString))
  | PDict items => negb (bool_decide (items = []))
  | POther o => obj_truthy o
  end.

(** [d.get(k, default)] on a dict. *)
Definition dict_get (d : list (string * pyval)) (k : string) (default : pyval)
    : pyval :=
  match getitem d k with
  | Some v => v
  | None => default
  end.

(** [v.get(k, default)] on any value: only a dict has the method. *)
Definition py_get (v : pyval) (k : string) (default : pyval) : outcome pyval :=
  match v with
  | PDict items => Returns (dict_get items k default)
  | _ => Raises AttributeError
  end.

(** An f-string, kept in its parts. *)
Inductive fpart : Type :=
  | FText (s : string)
  | FValue (v : pyval).

Record request : Type := {
  url : list fpart;
  payload : list (string * pyval);
  as_json : bool        (* [json=payload] rather than [data=payload] *)
}.

Record response : Type := {
  status_code : Z;
  json : outcome pyval  (* what [response.json()] returns or raises *)
}.

(** What the page has shown. *)
Inductive ui_event : Type :=
  | StError (message : list fpart)
  | StWarning (message : list fpart).

Record state : Type := {
  session_state : gmap string pyval;
  shown : list ui_event
}.

Variable environ : gmap string string.
Variable post : request → outcome response.

Definition get_firebase_api_key (ss : gmap string pyval) : pyval :=
  let from_environ :=
    match environ !! "FIREBASE_API_KEY" with
    | Some s => PStr s
    | None => PNone
    end in
  if truthy from_environ then from_environ
  else match ss !! "firebase_api_key" with
       | Some v => v
       | None => PNone
       end.

(** No key in the environment (or an empty one) and none that counts as
    true in the session state. *)
Definition no_api_key (ss : gmap string pyval) : Prop :=
  (environ !! "FIREBASE_API_KEY" = None
   ∨ environ !! "FIREBASE_API_KEY" = Some EmptyString)
  ∧ ∀ v, ss !! "firebase_api_key" = Some v → truthy v = false.

Definition sign_in_with_email_password (ss : gmap string pyval)
    (email password : string) : outcome (list (string * pyval)) :=
  let api_key := get_firebase_api_key ss in
  if negb (truthy api_key) then
    Returns [("error", PStr "Firebase API key not configured")]
  else
    let url := [FText (FIREBASE_AUTH_URL +:+ ":signInWithPassword?key=");
                FValue api_key] in
    let payload := [("email", PStr email); ("password", PStr password);
                    ("returnSecureToken", PBool true)] in
    except_request_exception
      (response ← post {| url := url; payload := payload; as_json := true |};
       data ← json response;
       if bool_decide (status_code response = 200%Z) then
         localId ← py_get data "localId" PNone;
         email' ← py_get data "email" PNone;
         idToken ← py_get data "idToken" PNone;
         refreshToken ← py_get data "refreshToken" PNone;
         expiresIn ← py_get data "expiresIn" PNone;
         Returns [("success", PBool true); ("user_id", localId);
                  ("email", email'); ("id_token", idToken);
                  ("refresh_token", refreshToken); ("expires_in", expiresIn)]
       else
         error ← py_get data "error" (PDict []);
         error_message ← py_get error "message" (PStr "Unknown error");
         Returns [("success", PBool false); ("error", error_message)])
      (λ e, Returns [("success", PBool false); ("error", PStr e)]).

Definition sign_up_with_email_password (ss : gmap string pyval)
    (email password : string) : outcome (list (string * pyval)) :=
  let api_key := get_firebase_api_key ss in
  if negb (truthy api_key) then
    Returns [("error", PStr "Firebase API key not configured")]
  else
    let url := [FText (FIREBASE_AUTH_URL +:+ ":signUp?key=");
                FValue api_key] in
    let payload := [("email", PStr email); ("password", PStr password);
                    ("returnSecureToken", PBool true)] in
    except_request_exception
      (response ← post {| url := url; payload := payload; as_json := true |};
       data ← json response;
       if bool_decide (status_code response = 200%Z) then
         localId ← py_get data "localId" PNone;
         email' ← py_get data "email" PNone;
         idToken ← py_get data "idToken" PNone;
         refreshToken ← py_get data "refreshToken" PNone;
         Returns [("success", PBool true); ("user_id", localId);
                  ("email", email'); ("id_token", idToken);
                  ("refresh_token", refreshToken)]
       else
         error ← py_get data "error" (PDict []);
         error_message ← py_get error "message" (PStr "Unknown error");
         Returns [("success", PBool false); ("error", error_message)])
      (λ e, Returns [("success", PBool false); ("error", PStr e)]).

Definition send_password_reset (ss : gmap string pyval) (email : string)
    : outcome (list (string * pyval)) :=
  let api_key := get_firebase_api_key ss in
  if negb (truthy api_key) then
    Returns [("error", PStr "Firebase API key not configured")]
  else
    let url := [FText (FIREBASE_AUTH_URL +:+ ":sendOobCode?key=");
                FValue api_key] in
    let payload := [("requestType", PStr "PASSWORD_RESET");
                    ("email", PStr email)] in
    except_request_exception
      (response ← post {| url := url; payload := payload; as_json := true |};
       if bool_decide (status_code response = 200%Z) then
         Returns [("success", PBool true);
                  ("message", PStr "Password reset email sent")]
       else
         data ← json response;
         error ← py_get data "error" (PDict []);
         error_message ← py_get error "message" (PStr "Unknown error");
         Returns [("success", PBool false); ("error", error_message)])
      (λ e, Returns [("success", PBool false); ("error", PStr e)]).

Definition refresh_id_token (ss : gmap string pyval) (refresh_token : string)
    : outcome (list (string * pyval)) :=
  let api_key := get_firebase_api_key ss in
  if negb (truthy api_key) then
    Returns [("error", PStr "Firebase API key not configured")]
  else
    let url := [FText "https://securetoken.googleapis.com/v1/token?key=";
                FValue api_key] in
    let payload := [("grant_type", PStr "refresh_token");
                    ("refresh_token", PStr refresh_token)] in
    except_request_exception
      (response ← post {| url := url; payload := payload; as_json := false |};
       data ← json response;
       if bool_decide (status_code response = 200%Z) then
         id_token ← py_get data "id_token" PNone;
         refresh_token' ← py_get data "refresh_token" PNone;
         expires_in ← py_get data "expires_in" PNone;
         Returns [("success", PBool true); ("id_token", id_token);
                  ("refresh_token", refresh_token');
                  ("expires_in", expires_in)]
       else
         error ← py_get data "error" (PDict []);
         error_message ← py_get error "message" (PStr "Unknown error");
         Returns [("success", PBool false); ("error", error_message)])
      (λ e, Returns [("success", PBool false); ("error", PStr e)]).

(** [if k not in st.session_state: st.session_state.k = v] *)
Definition set_default (k : string) (v : pyval) (ss : gmap string pyval)
    : gmap string pyval :=
  match ss !! k with
  | Some _ => ss
  | None => <[k := v]> ss
  end.

Definition init_session_state (ss : gmap string pyval) : gmap string pyval :=
  set_default "refresh_token" PNone
    (set_default "id_token" PNone
      (set_default "user_id" PNone
        (set_default "user_email" PNone
          (set_default "authenticated" (PBool false) ss)))).

(** The returned boolean, or the exception that escapes, with the state
    the call leaves behind. *)
Definition login (email password : string) (st : state)
    : outcome bool * state :=
  match sign_in_with_email_password (session_state st) email password with
  | Raises e => (Raises e, st)
  | Returns result =>
      if truthy (dict_get result "success" PNone) then
        (Returns true,
         {| session_state :=
              <["refresh_token" := dict_get result "refresh_token" PNone]>
                (<["id_token" := dict_get result "id_token" PNone]>
                  (<["user_id" := dict_get result "user_id" PNone]>
                    (<["user_email" := dict_get result "email" PNone]>
                      (<["authenticated" := PBool true]>
                        (session_state st)))));
            shown := shown st |})
      else
        (Returns false,
         {| session_state := session_state st;
            shown := shown st
                     ++ [StError [FText "Login failed: ";
                                  FValue (dict_get result "error" PNone)]] |})
  end.

Definition logout (ss : gmap string pyval) : gmap string pyval :=
  let ss := <["authenticated" := PBool false]> ss in
  let ss := <["user_email" := PNone]> ss in
  let ss := <["user_id" := PNone]> ss in
  let ss := <["id_token" := PNone]> ss in
  let ss := <["refresh_token" := PNone]> ss in
  let ss := match ss !! "canvas_token" with
            | Some _ => delete "canvas_token" ss
            | None => ss
            end in
  match ss !! "openrouter_key" with
  | Some _ => delete "openrouter_key" ss
  | None => ss
  end.

Definition is_authenticated (ss : gmap string pyval) : pyval :=
  match ss !! "authenticated" with
  | Some v => v
  | None => PBool false
  end.

(** The decorator: [wrapper] returns [None] without calling [func] when
    nobody is logged in.  [func] is any function of the arguments and the
    state; [None] of the result stands for Python's [None]. *)
Definition require_auth {A R : Type}
    (func : A → state → outcome R * state) (args : A) (st : state)
    : outcome (option R) * state :=
  if negb (truthy (is_authenticated (session_state st))) then
    (Returns None,
     {| session_state := session_state st;
        shown := shown st
                 ++ [StWarning
                       [FText "Please log in to access this feature."]] |})
  else
    match func args st with
    | (Returns r, st') => (Returns (Some r), st')
    | (Raises e, st') => (Raises e, st')
    end.
End Auth.

Arguments PNone {obj}.
Arguments PBool {obj} b.
Arguments PStr {obj} s.
Arguments PDict {obj} items.
Arguments POther {obj} o.
Arguments FText {obj} s.
Arguments FValue {obj} v.
Arguments StError {obj} message.
Arguments StWarning {obj} message.
Arguments truthy {obj} obj_truthy v.
Arguments dict_get {obj} d k default.
Arguments py_get {obj} v k default.
Arguments get_firebase_api_key {obj} obj_truthy environ ss.
Arguments no_api_key {obj} obj_truthy environ ss.
Arguments sign_in_with_email_password {obj} obj_truthy environ post ss.
Arguments sign_up_with_email_password {obj} obj_truthy environ post ss.
Arguments send_password_reset {obj} obj_truthy environ post ss.
Arguments refresh_id_token {obj} obj_truthy environ post ss.
Arguments set_default {obj} k v ss.
Arguments init_session_state {obj} ss.
Arguments login {obj} obj_truthy environ post email password st.
Arguments logout {obj} ss.
Arguments is_authenticated {obj} ss.
Arguments require_auth {obj} obj_truthy {A R} func args st.
Arguments session_state {obj} s.
Arguments shown {obj} s.
Arguments status_code {obj} r.
Arguments json {obj} r.
Arguments url {obj} r.
Arguments payload {obj} r.
Arguments as_json {obj} r.

(** ** The AI pass ([ai_polish_content] of [src/app.py])

    The chat completion is a call to an outside service: it is a function
    from the request to what [response.choices[0].message.content] is, or
    to the text of the exception raised on the way.  [str.strip] is a
    parameter as well: the properties proved below hold whatever it
    removes.  Building the client from the key does nothing that shows. *)
Definition chars (s : string) : list ascii := String.list_ascii_of_string s.
Definition of_chars (l : list ascii) : string := String.string_of_list_ascii l.

(** [s.startswith(prefix)] and [s.endswith(suffix)] *)
Definition startswith (s prefix : string) : bool :=
  bool_decide (chars prefix `prefix_of` chars s).
Definition endswith (s suffix : string) : bool :=
  bool_decide (chars suffix `suffix_of` chars s).

(** [s[n:]] and [s[:-n]] (for [n > 0]) *)
Definition slice_from (n : nat) (s : string) : string :=
  of_chars (drop n (chars s)).
Definition slice_to_last (n : nat) (s : string) : string :=
  of_chars (take (length (chars s) - n) (chars s)).

(** [s.split(" ")[0]]: what stands before the first space. *)
Fixpoint before_space (s : string) : string :=
  match s with
  | EmptyString => EmptyString
  | String c s' =>
      if Ascii.eqb c " "%char then EmptyString else String c (before_space s')
  end.

(** [sep.join(parts)] *)
Fixpoint str_join (sep : string) (parts : list string) : string :=
  match parts with
  | [] => EmptyString
  | [x] => x
  | x :: rest => x +:+ sep +:+ str_join sep rest
  end.

Definition newline : string := String (ascii_of_nat 10) EmptyString.

Record chat_request : Type := {
  chat_api_key : string;
  chat_model : option string;
  chat_system : string;      (* the system message *)
  chat_user : string;        (* the user message *)
  chat_max_tokens : Z
}.

Inductive chat_reply : Type :=
  | ChatContent (content : option string)  (* a [str], or [None] *)
  | ChatRaises (message : string).         (* [str(e)] of the exception *)

(** What [ai_polish_content] returns, with the warnings it has shown, or
    the [KeyError] that escapes it. *)
Inductive polished : Type :=
  | Polished (html : string) (warnings : list string)
  | PolishKeyError (key : string).

Section Polish.
Variable COLOR_MAP : dict Palette.
Variable strip : string → string.
Variable chat : chat_request → chat_reply.

(** The names of the other institutions, short and full, in table order. *)
Definition other_colleges (target_college : string) : list string :=
  flat_map (λ kv, if decide (kv.1 ≠ target_college)
                  then [before_space kv.1; full_name kv.2] else [])
           COLOR_MAP.

Definition system_prompt (target_college : string) (target_full_name : string)
    : string :=
  let target_short := before_space target_college in
  "You are a Canvas LMS HTML expert. Your task is to:" +:+ newline
  +:+ "1. Replace any references to other LACCD colleges with "
  +:+ target_full_name +:+ " (or " +:+ target_short
  +:+ " for short references)" +:+ newline
  +:+ "2. Ensure the HTML structure remains valid" +:+ newline
  +:+ "3. Preserve all existing formatting, styles, and structure" +:+ newline
  +:+ "4. Only change college name references, nothing else" +:+ newline
  +:+ newline
  +:+ "Other college names to look for and replace: "
  +:+ str_join ", " (take 10 (other_colleges target_college)) +:+ newline
  +:+ newline
  +:+ "Return ONLY the updated HTML, no explanations or markdown code blocks.".

(** The clean-up of the answer: the code fences go, then [strip]. *)
Definition unfence (result : string) : string :=
  let result := if startswith result "```html" then slice_from 7 result
                else result in
  let result := if startswith result "```" then slice_from 3 result
                else result in
  let result := if endswith result "```" then slice_to_last 3 result
                else result in
  strip result.

Definition ai_polish_content (html_content : string) (target_college : string)
    (openrouter_key : option string) (model : option string) : polished :=
  match openrouter_key with
  | None => Polished html_content []
  | Some key =>
      if bool_decide (html_content = EmptyString)
         || bool_decide (key = EmptyString)
      then Polished html_content []
      else
        match getitem COLOR_MAP target_college with
        | None => PolishKeyError target_college
        | Some target_colors =>
            let target_full_name := full_name target_colors in
            match chat {| chat_api_key := key;
                          chat_model := model;
                          chat_system :=
                            system_prompt target_college target_full_name;
                          chat_user := html_content;
                          chat_max_tokens := 16000%Z |} with
            | ChatContent (Some result) => Polished (unfence result) []
            | ChatContent None =>
                Polished html_content
                  ["AI processing failed: "
                   +:+ "'NoneType' object has no attribute 'startswith'"]
            | ChatRaises e =>
                Polished html_content ["AI processing failed: " +:+ e]
            end
        end
  end.
End Polish.

(** ** Characters *)

Lemma hexdigit_lower c : hexdigit (ascii_lower c) = hexdigit c.
Proof. by destruct c as [[] [] [] [] [] [] [] []]. Qed.

Lemma is_hash_lower c : is_hash (ascii_lower c) = is_hash c.
Proof. by destruct c as [[] [] [] [] [] [] [] []]. Qed.

Lemma is_hash_not_hex c : is_hash c = true → hexdigit c = false.
Proof. by destruct c as [[] [] [] [] [] [] [] []]. Qed.

Lemma ascii_lower_idemp c : ascii_lower (ascii_lower c) = ascii_lower c.
Proof. by destruct c as [[] [] [] [] [] [] [] []]. Qed.

Lemma lower_app s t : lower (s +:+ t) = lower s +:+ lower t.
Proof. induction s as [|c s IH]; simpl; [done | by rewrite IH]. Qed.

Lemma lower_length s : String.length (lower s) = String.length s.
Proof. induction s as [|c s IH]; simpl; [done | by rewrite IH]. Qed.

Lemma lower_idemp s : lower (lower s) = lower s.
Proof.
  induction s as [|c s IH]; simpl; [done |].
  by rewrite ascii_lower_idemp, IH.
Qed.

Lemma string_app_cons c s t : String c s +:+ t = String c (s +:+ t).
Proof. reflexivity. Qed.

Lemma string_app_nil_l t : EmptyString +:+ t = t.
Proof. reflexivity. Qed.

Lemma string_app_nil_r s : s +:+ EmptyString = s.
Proof.
  induction s as [|c s IH]; [done |]. by rewrite string_app_cons, IH.
Qed.

Lemma string_app_length s t :
  String.length (s +:+ t) = String.length s + String.length t.
Proof. induction s as [|c s IH]; simpl; [done | by rewrite IH]. Qed.

Lemma string_app_inj_length s1 s2 t1 t2 :
  String.length s1 = String.length s2 →
  s1 +:+ t1 = s2 +:+ t2 → s1 = s2 ∧ t1 = t2.
Proof.
  revert s2. induction s1 as [|c s1 IH]; intros [|d s2]; simpl; try done.
  intros Hl Heq. injection Heq as -> Heq.
  destruct (IH s2) as [-> ->]; [lia | done | done].
Qed.

(** ** The scan *)

Lemma starts_token_cons c s :
  starts_token (String c s) = is_hash c && hexrun 6 s.
Proof. reflexivity. Qed.

Lemma starts_token_split s :
  starts_token s = true →
  ∃ m rest, s = m +:+ rest ∧ hex_token m = true.
Proof.
  destruct s as [|c0 [|c1 [|c2 [|c3 [|c4 [|c5 [|c6 rest]]]]]]];
    simpl; rewrite ?andb_false_r; try done.
  intros H.
  exists (String c0 (String c1 (String c2 (String c3
            (String c4 (String c5 (String c6 EmptyString))))))), rest.
  split; [done |]. unfold hex_token.
  apply andb_true_intro; split; [exact H | by apply bool_decide_eq_true].
Qed.

Lemma hex_token_length m : hex_token m = true → String.length m = 7.
Proof.
  unfold hex_token. intros [_ H]%andb_prop. by apply bool_decide_eq_true in H.
Qed.

Lemma hex_token_starts m s :
  hex_token m = true → starts_token (m +:+ s) = true.
Proof.
  unfold hex_token. intros [H Hl]%andb_prop. apply bool_decide_eq_true in Hl.
  destruct m as [|c0 [|c1 [|c2 [|c3 [|c4 [|c5 [|c6 [|c7 m]]]]]]]]; try done.
Qed.

Lemma scan_seven c0 c1 c2 c3 c4 c5 c6 rest :
  scan (String c0 (String c1 (String c2 (String c3
          (String c4 (String c5 (String c6 rest)))))))
  = if starts_token (String c0 (String c1 (String c2 (String c3
          (String c4 (String c5 (String c6 rest)))))))
    then Matched (String c0 (String c1 (String c2 (String c3
                   (String c4 (String c5 (String c6 EmptyString)))))))
         :: scan rest
    else Lit c0 :: scan (String c1 (String c2 (String c3
                           (String c4 (String c5 (String c6 rest)))))).
Proof.
  cbn [starts_token hexrun]. rewrite andb_true_r, !andb_assoc. reflexivity.
Qed.

Lemma scan_Matched m s :
  hex_token m = true → scan (m +:+ s) = Matched m :: scan s.
Proof.
  intros Hm. pose proof (hex_token_starts m s Hm) as Hst.
  apply hex_token_length in Hm.
  destruct m as [|c0 [|c1 [|c2 [|c3 [|c4 [|c5 [|c6 [|c7 m]]]]]]]]; try done.
  rewrite !string_app_cons, string_app_nil_l in Hst |- *.
  by rewrite scan_seven, Hst.
Qed.

Lemma scan_Lit c s :
  starts_token (String c s) = false → scan (String c s) = Lit c :: scan s.
Proof.
  destruct s as [|c1 [|c2 [|c3 [|c4 [|c5 [|c6 rest]]]]]]; try done.
  intros Hst. by rewrite scan_seven, Hst.
Qed.

(** Induction along the walk of [re.sub]: either a character is copied, or
    a whole token is consumed. *)
Lemma scan_ind (P : string → Prop) :
  P EmptyString →
  (∀ c s, starts_token (String c s) = false → P s → P (String c s)) →
  (∀ m s, hex_token m = true → P s → P (m +:+ s)) →
  ∀ s, P s.
Proof.
  intros Hnil Hlit Htok s.
  remember (String.length s) as n eqn:Hn.
  revert s Hn. induction (lt_wf n) as [n _ IH]. intros s ->.
  destruct s as [|c s]; [done |].
  destruct (starts_token (String c s)) eqn:Hst.
  - destruct (starts_token_split _ Hst) as (m & rest & Heq & Hm).
    rewrite Heq. apply Htok; [done |].
    apply (IH (String.length rest)); [| done].
    rewrite Heq, string_app_length, (hex_token_length m Hm). lia.
  - apply Hlit; [done |]. apply (IH (String.length s)); simpl; [lia | done].
Qed.

Lemma join_scan s : join (scan s) = s.
Proof.
  induction s as [| c s Hst IH | m s Hm IH] using scan_ind; [done | |].
  - rewrite scan_Lit by done. simpl. by rewrite IH.
  - rewrite scan_Matched by done. simpl. by rewrite IH.
Qed.

Lemma scan_tokens s :
  Forall (λ p, match p with Matched m => hex_token m = true | Lit _ => True end)
         (scan s).
Proof.
  induction s as [| c s Hst IH | m s Hm IH] using scan_ind; [constructor | |].
  - rewrite scan_Lit by done. by constructor.
  - rewrite scan_Matched by done. by constructor.
Qed.

Lemma matches_tokens s : Forall (λ m, hex_token m = true) (matches s).
Proof.
  unfold matches. induction (scan_tokens s) as [|[c|m] ps Hp _ IH]; simpl.
  - constructor.
  - done.
  - by constructor.
Qed.

Lemma matches_single m : hex_token m = true → matches m = [m].
Proof.
  intros Hm. unfold matches.
  rewrite <- (string_app_nil_r m) at 1. by rewrite scan_Matched.
Qed.

(** ** The table and its reverse indices *)

Lemma getitem_Some_elem {V} (d : dict V) k v :
  getitem d k = Some v → (k, v) ∈ d.
Proof.
  induction d as [|[k' v'] d IH]; simpl; [done |].
  destruct (decide (k' = k)) as [-> | Hne].
  - intros [= ->]. by left.
  - intros H. right. by apply IH.
Qed.

Lemma getitem_unique {V} (d : dict V) k v :
  NoDup d.*1 → (k, v) ∈ d → getitem d k = Some v.
Proof.
  induction d as [|[k' v'] d IH]; simpl.
  - by intros _ ?%elem_of_nil.
  - intros [Hk Hd]%NoDup_cons [Heq | Hin]%elem_of_cons.
    + injection Heq as -> ->. by rewrite decide_True.
    + rewrite decide_False; [by apply IH |].
      intros ->. apply Hk. apply list_elem_of_fmap. by exists (k, v).
Qed.

Lemma build_index_snoc role t k v :
  build_index role (t ++ [(k, v)])
  = <[lower (role v) := k]> (build_index role t).
Proof. unfold build_index. by rewrite foldl_app. Qed.

(** An index entry comes from an item of the table. *)
Lemma build_index_Some role t c k :
  build_index role t !! c = Some k →
  ∃ v, (k, v) ∈ t ∧ lower (role v) = c.
Proof.
  induction t as [|[k' v'] t IH] using rev_ind; [done |].
  rewrite build_index_snoc, lookup_insert.
  case_decide as Hc.
  - intros [= ->]. exists v'. split; [| done].
    apply elem_of_app. right. by left.
  - intros (v & Hin & Hv)%IH. exists v. split; [| done].
    apply elem_of_app. by left.
Qed.

(** A colour is missing from an index exactly when no item has it. *)
Lemma build_index_None role t c :
  build_index role t !! c = None ↔
  ∀ k v, (k, v) ∈ t → lower (role v) ≠ c.
Proof.
  induction t as [|[k' v'] t IH] using rev_ind.
  - split; [by intros _ k v ?%elem_of_nil | done].
  - rewrite build_index_snoc, lookup_insert. case_decide as Hc; split.
    + done.
    + intros H. exfalso. apply (H k' v'); [| done].
      apply elem_of_app. right. by left.
    + intros Hn k v [Hin | Hin%list_elem_of_singleton]%elem_of_app.
      * by apply (proj1 IH Hn k v).
      * by injection Hin as -> ->.
    + intros H. apply IH. intros k v Hin. apply (H k v), elem_of_app. by left.
Qed.

(** The last item that has the colour owns the index entry. *)
Lemma build_index_last role t1 k v t2 c :
  lower (role v) = c →
  (∀ k' v', (k', v') ∈ t2 → lower (role v') ≠ c) →
  build_index role (t1 ++ (k, v) :: t2) !! c = Some k.
Proof.
  intros Hv. induction t2 as [|[k' v'] t2 IH] using rev_ind; intros Hlater.
  - by rewrite build_index_snoc, Hv, lookup_insert_eq.
  - change (t1 ++ (k, v) :: t2 ++ [(k', v')])
      with (t1 ++ ((k, v) :: t2) ++ [(k', v')]).
    rewrite app_assoc, build_index_snoc, lookup_insert_ne.
    + apply IH. intros k0 v0 Hin. apply (Hlater k0 v0), elem_of_app. by left.
    + apply (Hlater k' v'), elem_of_app. right. by left.
Qed.

Section RewriterFacts.
Context (COLOR_MAP : dict Palette).
Context (target : string) (p : Palette).

Lemma role_index_eq r : role_index COLOR_MAP r = build_index (role_color r) COLOR_MAP.
Proof. by destruct r. Qed.

(** With unique ids, an index entry for a colour that is none of the
    target's belongs to another institution. *)
Lemma index_source_foreign r c J :
  NoDup COLOR_MAP.*1 →
  getitem COLOR_MAP target = Some p →
  ¬ own_color p c →
  role_index COLOR_MAP r !! c = Some J → J ≠ target.
Proof.
  intros Hnd Hp Hown HJ ->. rewrite role_index_eq in HJ.
  apply build_index_Some in HJ as (v & Hin & Hv).
  rewrite (getitem_unique _ _ _ Hnd Hin) in Hp. injection Hp as ->.
  apply Hown. unfold own_color. destruct r; simpl in Hv; auto.
Qed.

Lemma replace_color_own mode m st :
  own_color p (lower m) →
  replace_color COLOR_MAP target p mode m st = (m, st).
Proof.
  unfold replace_color, own_color. intros Hown.
  repeat case_decide; try done. tauto.
Qed.

Lemma replace_color_foreign mode m st :
  ¬ own_color p (lower m) →
  replace_color COLOR_MAP target p mode m st
  = if mode then
      (primary p, st ++ ["Color: " +:+ lower m +:+ " -> " +:+ primary p])
    else replace_color COLOR_MAP target p false m st.
Proof.
  unfold replace_color, own_color. intros Hown.
  rewrite !decide_False by tauto. by destruct mode.
Qed.

Lemma replace_color_all m st :
  ¬ own_color p (lower m) →
  replace_color COLOR_MAP target p true m st
  = (primary p, st ++ ["Color: " +:+ lower m +:+ " -> " +:+ primary p]).
Proof. intros Hown. by rewrite replace_color_foreign. Qed.

(** The role branch of the callback, once the indices tried before [r]
    miss and the index of [r] names a source other than the target. *)
Lemma replace_color_role r J m st :
  ¬ own_color p (lower m) →
  (∀ r', r' ∈ earlier_roles r → role_index COLOR_MAP r' !! lower m = None) →
  role_index COLOR_MAP r !! lower m = Some J →
  J ≠ target →
  replace_color COLOR_MAP target p false m st
  = (role_color r p,
     st ++ [role_record r (lower m) J (role_color r p)]).
Proof.
  unfold replace_color, own_color. intros Hown Hearly HJ Hne.
  rewrite !decide_False by tauto.
  destruct r; simpl in HJ, Hearly |- *.
  - rewrite HJ. by rewrite decide_True.
  - pose proof (Hearly RPrimary ltac:(set_solver)) as H1. simpl in H1.
    rewrite H1, HJ. by rewrite decide_True.
  - pose proof (Hearly RPrimary ltac:(set_solver)) as H1.
    pose proof (Hearly RSecondary ltac:(set_solver)) as H2.
    simpl in H1, H2. rewrite H1, H2, HJ. by rewrite decide_True.
Qed.

Lemma replace_color_unknown m st :
  ALL_PRIMARIES COLOR_MAP !! lower m = None →
  ALL_SECONDARIES COLOR_MAP !! lower m = None →
  ALL_ACCENTS COLOR_MAP !! lower m = None →
  replace_color COLOR_MAP target p false m st = (m, st).
Proof.
  unfold replace_color. intros -> -> ->. by repeat case_decide.
Qed.

(** The callback only ever appends to [changes], and what it returns and
    appends does not depend on what was there. *)
Lemma replace_color_frame mode m st :
  replace_color COLOR_MAP target p mode m st
  = ((replace_color COLOR_MAP target p mode m []).1,
     st ++ (replace_color COLOR_MAP target p mode m []).2).
Proof.
  unfold replace_color.
  repeat first [ case_decide | case_match ]; simpl;
    by rewrite ?app_nil_r.
Qed.

(** Either the token comes back as it was and nothing is recorded, or
    it is replaced by one of the target's stored colours, which differs
    from it even up to letter case, and one record is appended. *)
Lemma replace_color_cases mode m :
  replace_color COLOR_MAP target p mode m [] = (m, [])
  ∨ ∃ r rec,
      replace_color COLOR_MAP target p mode m [] = (role_color r p, [rec])
      ∧ lower (role_color r p) ≠ lower m.
Proof.
  unfold replace_color.
  repeat first [ case_decide | case_match ]; simpl; auto; right.
  - exists RPrimary; eauto.
  - exists RPrimary; eauto.
  - exists RSecondary; eauto.
  - exists RAccent; eauto.
Qed.
End RewriterFacts.

(** ** The walk with a callback that only appends *)

Section Substitution.
Context {A : Type} (repl : string → list A → string * list A).

(** The callback appends to the state and is otherwise independent of it. *)
Hypothesis repl_frame :
  ∀ m st, repl m st = ((repl m []).1, st ++ (repl m []).2).

(** The output is the pieces with each match replaced, and the state grows
    by what the callback appends for each match, in scan order. *)
Lemma sub_pieces_spec ps st :
  sub_pieces repl ps st
  = (join (subst_pieces (λ m, (repl m []).1) ps),
     st ++ (tokens ps ≫= λ m, (repl m []).2)).
Proof.
  revert st. induction ps as [|[c|m] ps IH]; intros st; simpl.
  - by rewrite app_nil_r.
  - by rewrite IH.
  - rewrite repl_frame, IH. by rewrite <- app_assoc.
Qed.

Lemma re_sub_spec s st :
  re_sub repl s st
  = (join (subst_pieces (λ m, (repl m []).1) (scan s)),
     st ++ (matches s ≫= λ m, (repl m []).2)).
Proof. apply sub_pieces_spec. Qed.

Lemma re_sub_token m st : hex_token m = true → re_sub repl m st = repl m st.
Proof.
  intros Hm. rewrite re_sub_spec, matches_single by done.
  rewrite <- (string_app_nil_r m) at 1. rewrite scan_Matched by done.
  simpl. rewrite string_app_nil_r, app_nil_r. symmetry. apply repl_frame.
Qed.
End Substitution.

(** ** Segmentation is stable under token-for-token replacement *)

Lemma hexrun_token n m s : hex_token m = true → hexrun (S n) (m +:+ s) = false.
Proof.
  intros Hm. pose proof (hex_token_starts m s Hm) as Hst.
  destruct m as [|c m]; [done |].
  rewrite string_app_cons, starts_token_cons in Hst.
  apply andb_prop in Hst as [Hc _].
  rewrite string_app_cons. cbn [hexrun]. by rewrite (is_hash_not_hex c Hc).
Qed.

Lemma subst_pieces_Lit g c ps :
  subst_pieces g (Lit c :: ps) = Lit c :: subst_pieces g ps.
Proof. reflexivity. Qed.

Lemma subst_pieces_Matched g m ps :
  subst_pieces g (Matched m :: ps) = Matched (g m) :: subst_pieces g ps.
Proof. reflexivity. Qed.

Section Stable.
Context (g : string → string).
Hypothesis g_token : ∀ m, hex_token m = true → hex_token (g m) = true.

Lemma hexrun_subst n s :
  hexrun n (join (subst_pieces g (scan s))) = hexrun n s.
Proof.
  revert s. induction n as [|n IH]; intros s; [done |].
  destruct s as [| c s Hst _ | m s Hm _] using scan_ind; [done | |].
  - rewrite scan_Lit, subst_pieces_Lit by done. simpl. by rewrite IH.
  - rewrite scan_Matched, subst_pieces_Matched by done. cbn [join].
    by rewrite !hexrun_token by auto.
Qed.

Lemma scan_subst s :
  scan (join (subst_pieces g (scan s))) = subst_pieces g (scan s).
Proof.
  induction s as [| c s Hst IH | m s Hm IH] using scan_ind; [done | |].
  - rewrite scan_Lit, subst_pieces_Lit by done. cbn [join].
    rewrite scan_Lit; [by rewrite IH |].
    rewrite starts_token_cons in Hst |- *. by rewrite hexrun_subst.
  - rewrite scan_Matched, subst_pieces_Matched by done. cbn [join].
    rewrite scan_Matched by auto. by rewrite IH.
Qed.
End Stable.

(** ** Letter case *)

Lemma hexrun_lower n s : hexrun n (lower s) = hexrun n s.
Proof.
  revert s. induction n as [|n IH]; intros [|c s]; simpl; try done.
  by rewrite hexdigit_lower, IH.
Qed.

Lemma starts_token_lower s : starts_token (lower s) = starts_token s.
Proof.
  destruct s as [|c s]; [done |]. cbn [lower].
  by rewrite !starts_token_cons, is_hash_lower, hexrun_lower.
Qed.

Lemma lower_nil_inv s : lower s = EmptyString → s = EmptyString.
Proof. by destruct s. Qed.

(** Texts that agree up to letter case are cut into pieces alike. *)
Lemma scan_ci s t : lower s = lower t → Forall2 piece_ci (scan s) (scan t).
Proof.
  revert t. induction s as [| c s Hst IH | m s Hm IH] using scan_ind; intros t.
  - simpl. intros Ht. symmetry in Ht. apply lower_nil_inv in Ht as ->.
    constructor.
  - destruct t as [|d t]; [done |]. intros Hl.
    assert (starts_token (String d t) = false) as Hst'.
    { by rewrite <- starts_token_lower, <- Hl, starts_token_lower. }
    cbn [lower] in Hl. injection Hl as Hc Hl.
    rewrite !scan_Lit by done. constructor; [done | by apply IH].
  - intros Hl.
    assert (starts_token t = true) as Hst'.
    { rewrite <- starts_token_lower, <- Hl, starts_token_lower.
      by apply hex_token_starts. }
    destruct (starts_token_split _ Hst') as (m' & t' & -> & Hm').
    rewrite !lower_app in Hl.
    apply string_app_inj_length in Hl as [Hmm Htt].
    + rewrite !scan_Matched by done. constructor; [done | by apply IH].
    + by rewrite !lower_length, !hex_token_length.
Qed.

(** ** [replace_colors] on a registered target *)

Section Registered.
Context (COLOR_MAP : dict Palette) (target : string) (p : Palette).
Context (mode : bool).
Hypothesis target_registered : getitem COLOR_MAP target = Some p.

Local Abbreviation rc := (replace_color COLOR_MAP target p mode).

(** The text and the log that [replace_colors] returns. *)
Lemma replace_colors_registered html :
  replace_colors COLOR_MAP html target mode
  = Ok (join (subst_pieces (λ m, (rc m []).1) (scan html)))
       (matches html ≫= λ m, (rc m []).2).
Proof.
  unfold replace_colors. case_decide as Hempty; [by subst |].
  rewrite target_registered.
  by rewrite (re_sub_spec _ (replace_color_frame _ _ _ _)).
Qed.

Lemma replace_colors_token m :
  hex_token m = true →
  replace_colors COLOR_MAP m target mode = Ok (rc m []).1 (rc m []).2.
Proof.
  intros Hm. rewrite replace_colors_registered, matches_single by done.
  rewrite <- (string_app_nil_r m) at 1. rewrite scan_Matched by done.
  rewrite subst_pieces_Matched. simpl. by rewrite string_app_nil_r, app_nil_r.
Qed.

(** With a well-formed target palette the callback maps tokens to tokens. *)
Lemma replace_color_token m :
  palette_wf p → hex_token m = true → hex_token (rc m []).1 = true.
Proof.
  intros (Hp & Hs & Ha) Hm.
  destruct (replace_color_cases COLOR_MAP target p mode m)
    as [-> | (r & rec & -> & _)]; [done |].
  by destruct r.
Qed.

(** What the callback returned once, it returns unchanged and unrecorded. *)
Lemma replace_color_settled m :
  rc (rc m []).1 [] = ((rc m []).1, []).
Proof.
  destruct (replace_color_cases COLOR_MAP target p mode m)
    as [Heq | (r & rec & Heq & _)]; rewrite Heq; simpl; [done |].
  apply replace_color_own. unfold own_color. destruct r; simpl; auto.
Qed.

(** The callback decides by the canonical form alone. *)
Lemma replace_color_ci m1 m2 st :
  lower m1 = lower m2 →
  (rc m1 st = (m1, st) ∧ rc m2 st = (m2, st))
  ∨ ∃ r rec, rc m1 st = (role_color r p, st ++ [rec])
             ∧ rc m2 st = (role_color r p, st ++ [rec]).
Proof.
  intros Hl. unfold replace_color. rewrite Hl.
  repeat first [ case_decide | case_match ]; auto; right.
  - exists RPrimary; eauto.
  - exists RPrimary; eauto.
  - exists RSecondary; eauto.
  - exists RAccent; eauto.
Qed.
End Registered.

(** ** Whole texts *)

Lemma tokens_subst g ps : tokens (subst_pieces g ps) = g <$> tokens ps.
Proof.
  induction ps as [|[c|m] ps IH]; [done | done |].
  rewrite subst_pieces_Matched. cbn [tokens omap list_omap].
  fold (tokens (subst_pieces g ps)). fold (tokens ps).
  by rewrite IH.
Qed.

Lemma subst_pieces_settled g ps :
  (∀ m, g (g m) = g m) →
  subst_pieces g (subst_pieces g ps) = subst_pieces g ps.
Proof.
  intros Hg. induction ps as [|[c|m] ps IH]; [done | |].
  - by rewrite !subst_pieces_Lit, IH.
  - by rewrite !subst_pieces_Matched, Hg, IH.
Qed.

Lemma bind_fmap_nil {A B} (g : A → A) (f : A → list B) l :
  (∀ x, f (g x) = []) → (g <$> l) ≫= f = [].
Proof.
  intros Hf. induction l as [|x l IH]; [done |].
  rewrite fmap_cons, bind_cons, Hf, IH. done.
Qed.

Section Texts.
Context (COLOR_MAP : dict Palette) (target : string) (p : Palette).
Context (mode : bool).
Hypothesis target_registered : getitem COLOR_MAP target = Some p.

Local Abbreviation rc := (replace_color COLOR_MAP target p mode).
Local Abbreviation new_text := (λ m, (rc m []).1).
Local Abbreviation new_records := (λ m, (rc m []).2).

(** A second pass over the output of a first finds every token settled. *)
Lemma replace_colors_settled html :
  palette_wf p →
  replace_colors COLOR_MAP
    (join (subst_pieces new_text (scan html))) target mode
  = Ok (join (subst_pieces new_text (scan html))) [].
Proof.
  intros Hwf. rewrite (replace_colors_registered _ _ _ _ target_registered).
  unfold matches.
  rewrite scan_subst by (intros m; by apply replace_color_token).
  rewrite subst_pieces_settled, tokens_subst.
  - rewrite bind_fmap_nil; [done |].
    intros m. by rewrite replace_color_settled.
  - intros m. simpl. by rewrite replace_color_settled.
Qed.

(** One record for each match that is replaced by a different text. *)
Lemma records_count ms :
  length (ms ≫= new_records)
  = length (filter (λ m, new_text m ≠ m) ms).
Proof.
  induction ms as [|m ms IH]; [done |].
  rewrite bind_cons, length_app, filter_cons, IH.
  destruct (replace_color_cases COLOR_MAP target p mode m)
    as [Heq | (r & rec & Heq & Hl)]; rewrite Heq; simpl.
  - by rewrite decide_False by (intros H; by apply H).
  - rewrite decide_True; [done |]. by intros <-.
Qed.

(** The text is unchanged exactly when nothing is recorded. *)
Lemma unchanged_iff_no_record ps :
  palette_wf p →
  Forall (λ q, match q with Matched m => hex_token m = true | Lit _ => True end)
         ps →
  join (subst_pieces new_text ps) = join ps ↔ tokens ps ≫= new_records = [].
Proof.
  intros Hwf Hps. induction Hps as [|[c|m] ps Hq _ IH]; [done | |].
  - rewrite subst_pieces_Lit. cbn [join]. split.
    + intros [= H]. by apply IH.
    + intros H. f_equal. by apply IH.
  - rewrite subst_pieces_Matched. cbn [join tokens omap list_omap].
    fold (tokens ps). rewrite bind_cons.
    pose proof (replace_color_token COLOR_MAP target p mode m Hwf Hq) as Hnew.
    destruct (replace_color_cases COLOR_MAP target p mode m)
      as [Heq | (r & rec & Heq & Hl)]; rewrite Heq in Hnew |- *; simpl.
    + split.
      * intros [_ H]%string_app_inj_length; [by apply IH | done].
      * intros H. f_equal. by apply IH.
    + split; [| done].
      intros [H _]%string_app_inj_length.
      * by rewrite H in Hl.
      * simpl in Hnew. by rewrite !hex_token_length.
Qed.

(** Texts equal up to letter case: the same records, and outputs equal up
    to letter case. *)
Lemma pieces_ci ps qs :
  Forall2 piece_ci ps qs →
  tokens ps ≫= new_records = tokens qs ≫= new_records
  ∧ lower (join (subst_pieces new_text ps))
    = lower (join (subst_pieces new_text qs)).
Proof.
  induction 1 as [|[c|m] [d|n] ps qs Hpq _ [IHr IHt]]; try done.
  - rewrite !subst_pieces_Lit. cbn [join lower tokens omap list_omap].
    simpl in Hpq. split; [done | by rewrite Hpq, IHt].
  - rewrite !subst_pieces_Matched. cbn [join tokens omap list_omap].
    fold (tokens ps). fold (tokens qs). rewrite !bind_cons, !lower_app.
    simpl in Hpq.
    destruct (replace_color_ci COLOR_MAP target p mode m n [] Hpq)
      as [[-> ->] | (r & rec & -> & ->)]; simpl.
    + split; [done | by rewrite Hpq, IHt].
    + split; [by rewrite IHr | by rewrite IHt].
Qed.
End Texts.

(** ** The table of the source *)

Lemma LACCD_keys_unique : NoDup LACCD_COLOR_MAP.*1.
Proof. apply (bool_decide_unpack _). by vm_compute. Qed.

Lemma LACCD_palettes_wf target p :
  getitem LACCD_COLOR_MAP target = Some p → palette_wf p.
Proof.
  intros Hin%getitem_Some_elem. unfold LACCD_COLOR_MAP in Hin.
  repeat (apply elem_of_cons in Hin as [[= -> ->] | Hin];
          [by vm_compute |]).
  by apply elem_of_nil in Hin.
Qed.

(** On the table of the source the facts above need no side condition:
    every registered target has three colour tokens for colours. *)
Lemma LACCD_own_colours target p r :
  getitem LACCD_COLOR_MAP target = Some p →
  replace_colors LACCD_COLOR_MAP (role_color r p) target false
  = Ok (role_color r p) [].
Proof.
  intros Hp. destruct (LACCD_palettes_wf target p Hp) as (H1 & H2 & H3).
  rewrite (replace_colors_token _ _ _ _ Hp) by (by destruct r).
  rewrite replace_color_own; [done |].
  unfold own_color. destruct r; simpl; auto.
Qed.

Lemma LACCD_second_pass T target :
  is_Some (getitem LACCD_COLOR_MAP target) →
  ∃ T' log,
    replace_colors LACCD_COLOR_MAP T target false = Ok T' log
    ∧ replace_colors LACCD_COLOR_MAP T' target false = Ok T' [].
Proof.
  intros [p Hp]. eexists _, _. split.
  - apply (replace_colors_registered _ _ _ _ Hp).
  - apply replace_colors_settled; [done |]. by apply (LACCD_palettes_wf target).
Qed.

Lemma LACCD_changed_iff_recorded html target mode :
  is_Some (getitem LACCD_COLOR_MAP target) →
  ∃ out log,
    replace_colors LACCD_COLOR_MAP html target mode = Ok out log
    ∧ (out ≠ html ↔ log ≠ []).
Proof.
  intros [p Hp]. eexists _, _.
  split; [apply (replace_colors_registered _ _ _ _ Hp) |].
  pose proof (unchanged_iff_no_record LACCD_COLOR_MAP target p mode
                (scan html) (LACCD_palettes_wf target p Hp)
                (scan_tokens html)) as Hiff.
  rewrite join_scan in Hiff. unfold matches. by rewrite Hiff.
Qed.

(** ** The scenarios of the specification *)

Example scenario_known_only :
  replace_colors scenario_table "bg:#222222; fg:#bbbbbb; x:#ffffff;" "B" false
  = Ok "bg:#bbbbbb; fg:#bbbbbb; x:#ffffff;"
       ["Secondary: #222222 (A) -> #bbbbbb"].
Proof. reflexivity. Qed.

Example scenario_replace_all :
  replace_colors scenario_table "bg:#222222; fg:#bbbbbb; x:#ffffff;" "B" true
  = Ok "bg:#aaaaaa; fg:#bbbbbb; x:#aaaaaa;"
       ["Color: #222222 -> #aaaaaa"; "Color: #ffffff -> #aaaaaa"].
Proof. reflexivity. Qed.

Example scenario_no_token (mode : bool) :
  replace_colors LACCD_COLOR_MAP "<p>#12345 and #ggg000</p>"
    "WLAC (West LA)" mode
  = Ok "<p>#12345 and #ggg000</p>" [].
Proof. by destruct mode. Qed.

Example scenario_embedded_token :
  matches "x#12345678#abCDefg##00ff00" = ["#123456"; "#abCDef"; "#00ff00"].
Proof. reflexivity. Qed.

(** * The properties *)

(** C9.  For the empty text, the only falsy [str], [replace_colors] returns
    the text and an empty change list before the table is read: whatever
    the table holds, whatever the target id is (registered or not) and in
    either mode, the result is the same and no [KeyError] is raised. *)
Theorem empty_text_returned_before_lookup
    (table : dict Palette) (target : string) (mode : bool) :
  replace_colors table EmptyString target mode = Ok EmptyString [].
Proof. reflexivity. Qed.

(** C5, as stated, fails: on the empty text an unregistered target id
    raises nothing, and the text comes back with an empty change list. *)
Lemma unregistered_target_empty_text_no_error :
  getitem LACCD_COLOR_MAP "Nowhere College" = None
  ∧ replace_colors LACCD_COLOR_MAP "" "Nowhere College" false = Ok "" []
  ∧ replace_colors LACCD_COLOR_MAP "" "Nowhere College" true = Ok "" []
  ∧ replace_colors LACCD_COLOR_MAP "" "Nowhere College" false
    ≠ KeyError "Nowhere College".
Proof. by vm_compute. Qed.

(** C5, amended.  For every non-empty text and either mode, a target id
    that is not a key of the table makes [replace_colors] raise [KeyError]
    on that id; no text and no change list is returned. *)
Theorem unregistered_target_raises
    (table : dict Palette) (html target : string) (mode : bool) :
  html ≠ EmptyString →
  getitem table target = None →
  replace_colors table html target mode = KeyError target.
Proof.
  intros Hne Hnone. unfold replace_colors.
  by rewrite decide_False, Hnone.
Qed.

Lemma unregistered_target_raises_witness :
  replace_colors LACCD_COLOR_MAP "<b style='color:#447D29'>hi</b>"
    "Nowhere College" false = KeyError "Nowhere College".
Proof.
  apply unregistered_target_raises; [done | reflexivity].
Defined.

(** C2.  For a registered target, a colour token whose lowercase form is
    the lowercase of the target's primary, secondary or accent colour comes
    back from the callback exactly as matched and the change list is not
    touched, in either mode; so a text that is one such token is returned
    with an empty change list.  In particular each of the target's three
    stored colours, when it is a colour token, is returned as it is with an
    empty change list in the conservative mode. *)
Theorem own_colours_left_alone
    (table : dict Palette) (target : string) (p : Palette) :
  getitem table target = Some p →
  (∀ mode m st, own_color p (lower m) →
     replace_color table target p mode m st = (m, st))
  ∧ (∀ mode m, hex_token m = true → own_color p (lower m) →
       replace_colors table m target mode = Ok m [])
  ∧ (∀ r, hex_token (role_color r p) = true →
       replace_colors table (role_color r p) target false
       = Ok (role_color r p) []).
Proof.
  intros Hp.
  assert (∀ mode m, hex_token m = true → own_color p (lower m) →
            replace_colors table m target mode = Ok m []) as Htext.
  { intros mode m Hm Hown.
    rewrite (replace_colors_token _ _ _ _ Hp) by done.
    by rewrite replace_color_own. }
  split; [intros mode m st; apply replace_color_own |].
  split; [done |].
  intros r Hr. apply Htext; [done |].
  unfold own_color. destruct r; simpl; auto.
Qed.

Lemma own_colours_left_alone_witness :
  replace_colors LACCD_COLOR_MAP "#FDB913" "ELAC (East LA)" false
    = Ok "#FDB913" []
  ∧ replace_colors LACCD_COLOR_MAP "#33511d" "ELAC (East LA)" true
    = Ok "#33511d" [].
Proof.
  pose (ELAC := {| primary := "#447D29"; secondary := "#33511D";
                   accent := "#FDB913";
                   full_name := "East Los Angeles College" |}).
  destruct (own_colours_left_alone LACCD_COLOR_MAP "ELAC (East LA)" ELAC)
    as (_ & Htok & Hrole); [reflexivity |].
  split.
  - apply (Hrole RAccent). reflexivity.
  - apply Htok; [reflexivity |]. right. left. reflexivity.
Defined.

(** C3.  In the replace-all mode, for a registered target, a colour token
    whose lowercase form is none of the target's three lowercased colours
    is replaced by the target's primary colour as stored and exactly one
    record ["Color: <lowercase token> -> <primary>"] is appended, whatever
    the reverse indices hold for it; a text that is one such token yields
    the primary colour and that one record. *)
Theorem replace_all_gives_primary
    (table : dict Palette) (target : string) (p : Palette)
    (m : string) (st : list string) :
  getitem table target = Some p →
  ¬ own_color p (lower m) →
  replace_color table target p true m st
  = (primary p, st ++ ["Color: " +:+ lower m +:+ " -> " +:+ primary p])
  ∧ (hex_token m = true →
     replace_colors table m target true
     = Ok (primary p) ["Color: " +:+ lower m +:+ " -> " +:+ primary p]).
Proof.
  intros Hp Hown. split; [by apply replace_color_all |].
  intros Hm. rewrite (replace_colors_token _ _ _ _ Hp) by done.
  by rewrite replace_color_all.
Qed.

Lemma replace_all_gives_primary_witness :
  replace_colors LACCD_COLOR_MAP "#ABCDEF" "ELAC (East LA)" true
    = Ok "#447D29" ["Color: #abcdef -> #447D29"]
  ∧ replace_colors LACCD_COLOR_MAP "#ffc72c" "ELAC (East LA)" true
    = Ok "#447D29" ["Color: #ffc72c -> #447D29"].
Proof.
  pose (ELAC := {| primary := "#447D29"; secondary := "#33511D";
                   accent := "#FDB913";
                   full_name := "East Los Angeles College" |}).
  split.
  - apply (replace_all_gives_primary LACCD_COLOR_MAP "ELAC (East LA)" ELAC
             "#ABCDEF" []); [reflexivity | | reflexivity].
    by intros [H | [H | H]]; vm_compute in H.
  - apply (replace_all_gives_primary LACCD_COLOR_MAP "ELAC (East LA)" ELAC
             "#ffc72c" []); [reflexivity | | reflexivity].
    by intros [H | [H | H]]; vm_compute in H.
Defined.

(** C4.  In the conservative mode, a colour token whose lowercase form is
    a key of none of the three reverse indices comes back from the callback
    exactly as matched, in the casing of the input, and the change list is
    not touched; a text that is one such token is returned with an empty
    change list. *)
Theorem unknown_colour_kept
    (table : dict Palette) (target : string) (p : Palette)
    (m : string) (st : list string) :
  ALL_PRIMARIES table !! lower m = None →
  ALL_SECONDARIES table !! lower m = None →
  ALL_ACCENTS table !! lower m = None →
  replace_color table target p false m st = (m, st)
  ∧ (getitem table target = Some p → hex_token m = true →
     replace_colors table m target false = Ok m []).
Proof.
  intros H1 H2 H3. split; [by apply replace_color_unknown |].
  intros Hp Hm. rewrite (replace_colors_token _ _ _ _ Hp) by done.
  by rewrite replace_color_unknown.
Qed.

Lemma unknown_colour_kept_witness :
  replace_colors LACCD_COLOR_MAP "#AbCdEf" "ELAC (East LA)" false
  = Ok "#AbCdEf" [].
Proof.
  pose (ELAC := {| primary := "#447D29"; secondary := "#33511D";
                   accent := "#FDB913";
                   full_name := "East Los Angeles College" |}).
  apply (unknown_colour_kept LACCD_COLOR_MAP "ELAC (East LA)" ELAC
           "#AbCdEf" []); by vm_compute.
Defined.

(** C1, as stated, fails on the table of the source.  [#FFC72C] is the
    accent colour of LAHC and the secondary colour of LAVC: retargeted to
    ELAC it becomes ELAC's secondary colour under a "Secondary" record, not
    ELAC's accent.  [#FFFFFF] is the accent colour of LAPC, LASC and LAVC:
    the record names LAVC, the last of them in the table, not LAPC. *)
Lemma shared_colour_role_and_source :
  accent <$> getitem LACCD_COLOR_MAP "LAHC (LA Harbor)" = Some "#FFC72C"
  ∧ accent <$> getitem LACCD_COLOR_MAP "LAPC (LA Pierce)" = Some "#FFFFFF"
  ∧ accent <$> getitem LACCD_COLOR_MAP "ELAC (East LA)" = Some "#FDB913"
  ∧ replace_colors LACCD_COLOR_MAP "#FFC72C" "ELAC (East LA)" false
    = Ok "#33511D" ["Secondary: #ffc72c (LAVC (LA Valley)) -> #33511D"]
  ∧ replace_colors LACCD_COLOR_MAP "#FFC72C" "ELAC (East LA)" false
    ≠ Ok "#FDB913" ["Accent: #ffc72c (LAHC (LA Harbor)) -> #FDB913"]
  ∧ replace_colors LACCD_COLOR_MAP "#FFFFFF" "ELAC (East LA)" false
    = Ok "#FDB913" ["Accent: #ffffff (LAVC (LA Valley)) -> #FDB913"]
  ∧ replace_colors LACCD_COLOR_MAP "#FFFFFF" "ELAC (East LA)" false
    ≠ Ok "#FDB913" ["Accent: #ffffff (LAPC (LA Pierce)) -> #FDB913"].
Proof. by vm_compute. Qed.

(** C1, amended.  In the conservative mode, take a registered target and a
    colour token whose lowercase form is none of the target's three
    lowercased colours.  Let [J], different from the target, be the last
    institution of the table whose colour for role [R] has that lowercase
    form, and let no institution have it for a role tried before [R]
    (primary before secondary before accent).  Then the token is replaced by
    the target's stored colour for [R] and exactly one record
    ["<Role>: <lowercase token> (<J>) -> <new colour>"] is appended. *)
Theorem foreign_colour_takes_target_role
    (table t1 t2 : dict Palette) (target J : string) (p pj : Palette)
    (R : Role) (m : string) (st : list string) :
  getitem table target = Some p →
  table = t1 ++ (J, pj) :: t2 →
  lower (role_color R pj) = lower m →
  (∀ k v, (k, v) ∈ t2 → lower (role_color R v) ≠ lower m) →
  (∀ R' k v, R' ∈ earlier_roles R → (k, v) ∈ table →
             lower (role_color R' v) ≠ lower m) →
  J ≠ target →
  ¬ own_color p (lower m) →
  replace_color table target p false m st
  = (role_color R p, st ++ [role_record R (lower m) J (role_color R p)])
  ∧ (hex_token m = true →
     replace_colors table m target false
     = Ok (role_color R p) [role_record R (lower m) J (role_color R p)]).
Proof.
  intros Hp -> HJ Hlast Hearly Hne Hown.
  assert (∀ st', replace_color (t1 ++ (J, pj) :: t2) target p false m st'
            = (role_color R p,
               st' ++ [role_record R (lower m) J (role_color R p)])) as Hrc.
  { intros st'. apply replace_color_role; [done | | | done].
    - intros R' HR'. rewrite role_index_eq. apply build_index_None.
      intros k v Hin. by apply (Hearly R' k v).
    - rewrite role_index_eq. by apply build_index_last. }
  split; [apply Hrc |].
  intros Hm. rewrite (replace_colors_token _ _ _ _ Hp) by done.
  by rewrite Hrc.
Qed.

Lemma foreign_colour_takes_target_role_witness :
  replace_colors LACCD_COLOR_MAP "#ffC72c" "ELAC (East LA)" false
  = Ok "#33511D" ["Secondary: #ffc72c (LAVC (LA Valley)) -> #33511D"].
Proof.
  pose (ELAC := {| primary := "#447D29"; secondary := "#33511D";
                   accent := "#FDB913";
                   full_name := "East Los Angeles College" |}).
  pose (LAVC := {| primary := "#00593F"; secondary := "#FFC72C";
                   accent := "#FFFFFF";
                   full_name := "Los Angeles Valley College" |}).
  apply (foreign_colour_takes_target_role LACCD_COLOR_MAP
           (take 8 LACCD_COLOR_MAP) (drop 9 LACCD_COLOR_MAP)
           "ELAC (East LA)" "LAVC (LA Valley)" ELAC LAVC RSecondary
           "#ffC72c" []); try reflexivity; try done.
  - intros k v Hin. vm_compute in Hin.
    apply elem_of_cons in Hin as [[= -> ->] | Hin]; [by vm_compute |].
    by apply elem_of_nil in Hin.
  - intros R' k v HR' Hin.
    apply list_elem_of_singleton in HR' as ->.
    unfold LACCD_COLOR_MAP in Hin.
    repeat (apply elem_of_cons in Hin as [[= -> ->] | Hin];
            [by vm_compute |]).
    by apply elem_of_nil in Hin.
  - by intros [H | [H | H]]; vm_compute in H.
Defined.

(** C7.  In the conservative mode the callback tries the index of the
    primaries, then that of the secondaries, then that of the accents, and
    the first one that has the lowercase token decides: for a registered
    target (ids being unique) and a token that is none of the target's
    colours, if the index of role [R] has the colour and the indices tried
    before [R] do not, the token is replaced by the target's colour for [R]
    and the record carries the tag of [R] and the institution that index
    holds, whether or not an index tried after [R] has the colour too. *)
Theorem first_index_decides_role
    (table : dict Palette) (target : string) (p : Palette)
    (R : Role) (m : string) (st : list string) :
  NoDup table.*1 →
  getitem table target = Some p →
  ¬ own_color p (lower m) →
  is_Some (role_index table R !! lower m) →
  (∀ R', R' ∈ earlier_roles R → role_index table R' !! lower m = None) →
  ∃ J, role_index table R !! lower m = Some J
       ∧ replace_color table target p false m st
         = (role_color R p,
            st ++ [role_record R (lower m) J (role_color R p)]).
Proof.
  intros Hnd Hp Hown [J HJ] Hearly. exists J. split; [done |].
  apply replace_color_role; try done.
  by apply (index_source_foreign table target p R (lower m) J).
Qed.

Lemma first_index_decides_role_witness :
  ALL_SECONDARIES LACCD_COLOR_MAP !! "#ffc72c" = Some "LAVC (LA Valley)"
  ∧ ALL_ACCENTS LACCD_COLOR_MAP !! "#ffc72c" = Some "LAHC (LA Harbor)"
  ∧ ∃ J, role_index LACCD_COLOR_MAP RSecondary !! lower "#FFC72C" = Some J
       ∧ replace_color LACCD_COLOR_MAP "ELAC (East LA)"
           {| primary := "#447D29"; secondary := "#33511D";
              accent := "#FDB913";
              full_name := "East Los Angeles College" |} false "#FFC72C" []
         = ("#33511D",
            [] ++ [role_record RSecondary (lower "#FFC72C") J "#33511D"]).
Proof.
  split; [reflexivity |]. split; [reflexivity |].
  apply (first_index_decides_role LACCD_COLOR_MAP "ELAC (East LA)"
           {| primary := "#447D29"; secondary := "#33511D";
              accent := "#FDB913";
              full_name := "East Los Angeles College" |} RSecondary
           "#FFC72C" []).
  - apply (bool_decide_unpack _). by vm_compute.
  - reflexivity.
  - by intros [H | [H | H]]; vm_compute in H.
  - eexists. reflexivity.
  - intros R' HR'. apply list_elem_of_singleton in HR' as ->. reflexivity.
Defined.

(** C6.  The conservative mode is idempotent: for every text and every
    registered target whose three colours are colour tokens (as all of the
    source's table are), [replace_colors] returns a text, and run again on
    that text it returns it unchanged with an empty change list. *)
Theorem known_only_idempotent
    (table : dict Palette) (target : string) (p : Palette) (T : string) :
  getitem table target = Some p →
  palette_wf p →
  ∃ T' log,
    replace_colors table T target false = Ok T' log
    ∧ replace_colors table T' target false = Ok T' [].
Proof.
  intros Hp Hwf. eexists _, _. split.
  - apply (replace_colors_registered _ _ _ _ Hp).
  - by apply replace_colors_settled.
Qed.

Lemma known_only_idempotent_witness :
  ∃ T' log,
    replace_colors LACCD_COLOR_MAP
      "a{color:#ffc72c} b{color:#447d29} c{color:#ABCDEF;background:#ffffff}"
      "ELAC (East LA)" false = Ok T' log
    ∧ replace_colors LACCD_COLOR_MAP T' "ELAC (East LA)" false = Ok T' [].
Proof.
  apply (known_only_idempotent LACCD_COLOR_MAP "ELAC (East LA)"
           {| primary := "#447D29"; secondary := "#33511D";
              accent := "#FDB913";
              full_name := "East Los Angeles College" |}).
  - reflexivity.
  - by vm_compute.
Defined.

(** C8, as stated, fails: a token that matches the target's own colour in
    another casing is kept in the casing of the input, not put into the
    form the table stores. *)
Lemma own_colour_keeps_input_casing :
  primary <$> getitem LACCD_COLOR_MAP "ELAC (East LA)" = Some "#447D29"
  ∧ lower "#447d29" = lower "#447D29"
  ∧ replace_colors LACCD_COLOR_MAP "#447d29" "ELAC (East LA)" false
    = Ok "#447d29" []
  ∧ replace_colors LACCD_COLOR_MAP "#447d29" "ELAC (East LA)" false
    ≠ Ok "#447D29" [].
Proof. by vm_compute. Qed.

(** C8, amended.  For a registered target and either mode: two texts that
    are equal up to letter case (so, in particular, two texts that differ
    only in the casing of their colour tokens) get the same change list and
    outputs that are equal up to letter case; and two tokens that are equal
    up to letter case are either both kept, each in its own casing, or both
    replaced by the same colour of the target exactly as the table stores
    it, with the same record. *)
Theorem decisions_ignore_letter_case
    (table : dict Palette) (target : string) (p : Palette) (mode : bool) :
  getitem table target = Some p →
  (∀ T1 T2, lower T1 = lower T2 →
     ∃ o1 o2 log,
       replace_colors table T1 target mode = Ok o1 log
       ∧ replace_colors table T2 target mode = Ok o2 log
       ∧ lower o1 = lower o2)
  ∧ (∀ m1 m2 st, lower m1 = lower m2 →
       (replace_color table target p mode m1 st = (m1, st)
        ∧ replace_color table target p mode m2 st = (m2, st))
       ∨ ∃ r rec,
           replace_color table target p mode m1 st
             = (role_color r p, st ++ [rec])
           ∧ replace_color table target p mode m2 st
             = (role_color r p, st ++ [rec])).
Proof.
  intros Hp. split; [| intros m1 m2 st; apply replace_color_ci].
  intros T1 T2 Hl.
  destruct (pieces_ci table target p mode _ _ (scan_ci T1 T2 Hl)) as [Hr Ht].
  eexists _, _, _. split; [apply (replace_colors_registered _ _ _ _ Hp) |].
  split; [| exact Ht].
  rewrite (replace_colors_registered _ _ _ _ Hp). f_equal. symmetry. exact Hr.
Qed.

Lemma decisions_ignore_letter_case_witness :
  ∃ o1 o2 log,
    replace_colors LACCD_COLOR_MAP "x:#FFC72C y:#447D29 z:#AbCdEf"
      "ELAC (East LA)" false = Ok o1 log
    ∧ replace_colors LACCD_COLOR_MAP "x:#ffc72c y:#447d29 z:#aBcDeF"
        "ELAC (East LA)" false = Ok o2 log
    ∧ lower o1 = lower o2.
Proof.
  destruct (decisions_ignore_letter_case LACCD_COLOR_MAP "ELAC (East LA)"
              {| primary := "#447D29"; secondary := "#33511D";
                 accent := "#FDB913";
                 full_name := "East Los Angeles College" |} false)
    as [Htext _]; [reflexivity |].
  apply Htext. reflexivity.
Defined.

(** C10.  For every text, either mode and every registered target whose
    three colours are colour tokens (as all of the source's table are),
    [replace_colors] returns a text and a change list such that the text
    differs from the input exactly when the change list is not empty, and
    the change list has as many records as there are matches whose
    replacement differs from the matched token. *)
Theorem change_list_counts_replacements
    (table : dict Palette) (target : string) (p : Palette) (mode : bool)
    (html : string) :
  getitem table target = Some p →
  palette_wf p →
  ∃ out log,
    replace_colors table html target mode = Ok out log
    ∧ (out ≠ html ↔ log ≠ [])
    ∧ length log
      = length (filter (λ m, (replace_color table target p mode m []).1 ≠ m)
                       (matches html)).
Proof.
  intros Hp Hwf. eexists _, _.
  split; [apply (replace_colors_registered _ _ _ _ Hp) |]. split.
  - pose proof (unchanged_iff_no_record table target p mode (scan html)
                  Hwf (scan_tokens html)) as Hiff.
    rewrite join_scan in Hiff. unfold matches. by rewrite Hiff.
  - apply records_count.
Qed.

Lemma change_list_counts_replacements_witness :
  ∃ out log,
    replace_colors LACCD_COLOR_MAP
      "a{color:#ffc72c} b{color:#447d29} c{color:#ABCDEF;background:#ffffff}"
      "ELAC (East LA)" true = Ok out log
    ∧ (out ≠ "a{color:#ffc72c} b{color:#447d29} c{color:#ABCDEF;background:#ffffff}"
       ↔ log ≠ [])
    ∧ length log
      = length (filter
          (λ m, (replace_color LACCD_COLOR_MAP "ELAC (East LA)"
                   {| primary := "#447D29"; secondary := "#33511D";
                      accent := "#FDB913";
                      full_name := "East Los Angeles College" |}
                   true m []).1 ≠ m)
          (matches "a{color:#ffc72c} b{color:#447d29} c{color:#ABCDEF;background:#ffffff}")).
Proof.
  apply (change_list_counts_replacements LACCD_COLOR_MAP "ELAC (East LA)"
           {| primary := "#447D29"; secondary := "#33511D";
              accent := "#FDB913";
              full_name := "East Los Angeles College" |} true).
  - reflexivity.
  - by vm_compute.
Defined.

(** * Further properties of the colour engine *)

(** ** The set of known colours and the reverse indices *)

Lemma get_all_source_colors_snoc t k v :
  get_all_source_colors (t ++ [(k, v)])
  = get_all_source_colors t ∪ {[lower (primary v)]}
      ∪ {[lower (secondary v)]} ∪ {[lower (accent v)]}.
Proof. unfold get_all_source_colors. by rewrite foldl_app. Qed.

Lemma all_source_colors_elem t c :
  c ∈ ALL_SOURCE_COLORS t ↔ ∃ k v, (k, v) ∈ t ∧ own_color v c.
Proof.
  unfold ALL_SOURCE_COLORS, own_color.
  induction t as [|[k' v'] t IH] using rev_ind.
  - split; [by intros ?%elem_of_empty |].
    by intros (k & v & ?%elem_of_nil & _).
  - rewrite get_all_source_colors_snoc, !elem_of_union, !elem_of_singleton, IH.
    split.
    + intros [[[(k & v & Hin & Hc) | Hc] | Hc] | Hc].
      * exists k, v. split; [apply elem_of_app; by left | done].
      * exists k', v'. split; [apply elem_of_app; right; by left | auto].
      * exists k', v'. split; [apply elem_of_app; right; by left | auto].
      * exists k', v'. split; [apply elem_of_app; right; by left | auto].
    + intros (k & v & [Hin | Hin%list_elem_of_singleton]%elem_of_app & Hc).
      * left. left. left. by exists k, v.
      * injection Hin as -> ->. tauto.
Qed.

Lemma build_index_is_Some role t c :
  is_Some (build_index role t !! c) ↔ ∃ k v, (k, v) ∈ t ∧ lower (role v) = c.
Proof.
  split.
  - intros [k (v & Hin & Hv)%build_index_Some]. by exists k, v.
  - intros (k & v & Hin & Hv).
    destruct (build_index role t !! c) eqn:Hl; [by eexists |].
    exfalso. by apply (proj1 (build_index_None role t c) Hl k v).
Qed.

Lemma all_source_colors_keys table :
  ALL_SOURCE_COLORS table
  = dom (ALL_PRIMARIES table) ∪ dom (ALL_SECONDARIES table)
      ∪ dom (ALL_ACCENTS table).
Proof.
  apply set_eq. intros c.
  rewrite !elem_of_union, !elem_of_dom, all_source_colors_elem.
  change (ALL_PRIMARIES table) with (build_index primary table).
  change (ALL_SECONDARIES table) with (build_index secondary table).
  change (ALL_ACCENTS table) with (build_index accent table).
  rewrite !build_index_is_Some. unfold own_color. split.
  - intros (k & v & Hin & [Hc | [Hc | Hc]]); eauto 8.
  - intros [[(k & v & Hin & Hc) | (k & v & Hin & Hc)] | (k & v & Hin & Hc)];
      exists k, v; auto.
Qed.

(** X1.  [ALL_SOURCE_COLORS] holds exactly the keys of the three reverse
    indices: a colour is in the set if and only if some index has it. *)
Theorem all_source_colors_are_index_keys (table : dict Palette) :
  ALL_SOURCE_COLORS table
  = dom (ALL_PRIMARIES table) ∪ dom (ALL_SECONDARIES table)
      ∪ dom (ALL_ACCENTS table).
Proof. apply all_source_colors_keys. Qed.

(** A known colour that is not the target's is replaced and recorded. *)
Lemma replace_color_known table target p m st :
  NoDup table.*1 →
  getitem table target = Some p →
  lower m ∈ ALL_SOURCE_COLORS table →
  ¬ own_color p (lower m) →
  ∃ R J, J ≠ target
    ∧ replace_color table target p false m st
      = (role_color R p, st ++ [role_record R (lower m) J (role_color R p)]).
Proof.
  intros Hnd Hp. rewrite all_source_colors_keys.
  rewrite !elem_of_union, !elem_of_dom. intros Hin Hown.
  assert (∀ R J, role_index table R !! lower m = Some J → J ≠ target)
    as Hforeign.
  { intros R J. by apply (index_source_foreign table target p R (lower m)). }
  destruct (ALL_PRIMARIES table !! lower m) as [J|] eqn:H1.
  { exists RPrimary, J. split; [by apply (Hforeign RPrimary) |].
    apply replace_color_role; try done; [by intros ? ?%elem_of_nil |].
    by apply (Hforeign RPrimary). }
  destruct (ALL_SECONDARIES table !! lower m) as [J|] eqn:H2.
  { exists RSecondary, J. split; [by apply (Hforeign RSecondary) |].
    apply replace_color_role; try done; [| by apply (Hforeign RSecondary)].
    by intros R' ->%list_elem_of_singleton. }
  destruct (ALL_ACCENTS table !! lower m) as [J|] eqn:H3.
  { exists RAccent, J. split; [by apply (Hforeign RAccent) |].
    apply replace_color_role; try done; [| by apply (Hforeign RAccent)].
    intros R' [-> | ->%list_elem_of_singleton]%elem_of_cons; done. }
  exfalso. destruct Hin as [[[? [=]] | [? [=]]] | [? [=]]].
Qed.

(** X2.  In the conservative mode the callback replaces a token exactly
    when its lowercase form is in [ALL_SOURCE_COLORS] and is none of the
    target's three colours (ids unique, target registered): a token outside
    the set, or one of the target's own, comes back untouched; every other
    token is replaced by a colour of the target and recorded with an
    institution other than the target. *)
Theorem known_only_replaces_exactly_known
    (table : dict Palette) (target : string) (p : Palette)
    (m : string) (st : list string) :
  NoDup table.*1 →
  getitem table target = Some p →
  (lower m ∉ ALL_SOURCE_COLORS table ∨ own_color p (lower m) →
     replace_color table target p false m st = (m, st))
  ∧ (lower m ∈ ALL_SOURCE_COLORS table → ¬ own_color p (lower m) →
     ∃ R J, J ≠ target
       ∧ replace_color table target p false m st
         = (role_color R p,
            st ++ [role_record R (lower m) J (role_color R p)])).
Proof.
  intros Hnd Hp. split; [| by apply replace_color_known].
  intros [Hout | Hown]; [| by apply replace_color_own].
  rewrite all_source_colors_keys, !elem_of_union, !elem_of_dom in Hout.
  apply replace_color_unknown; apply eq_None_not_Some; tauto.
Qed.

Lemma known_only_replaces_exactly_known_witness :
  replace_color LACCD_COLOR_MAP "ELAC (East LA)"
    {| primary := "#447D29"; secondary := "#33511D"; accent := "#FDB913";
       full_name := "East Los Angeles College" |} false "#123ABC" []
  = ("#123ABC", []).
Proof.
  destruct (known_only_replaces_exactly_known LACCD_COLOR_MAP "ELAC (East LA)"
              {| primary := "#447D29"; secondary := "#33511D";
                 accent := "#FDB913";
                 full_name := "East Los Angeles College" |} "#123ABC" [])
    as [Hkeep _].
  - apply (bool_decide_unpack _). by vm_compute.
  - reflexivity.
  - apply Hkeep. left. apply (bool_decide_unpack _). by vm_compute.
Defined.

(** X3.  The reverse indices invert the table (ids unique): an entry
    [c ↦ k] of the index of a role means that institution [k] is in the
    table and its colour for that role lowercases to [c]; and the
    lowercased role colour of every institution of the table is a key of
    that role's index. *)
Theorem reverse_index_inverts_table (table : dict Palette) (R : Role) :
  NoDup table.*1 →
  (∀ c k, role_index table R !! c = Some k →
     ∃ v, getitem table k = Some v ∧ lower (role_color R v) = c)
  ∧ (∀ k v, getitem table k = Some v →
       is_Some (role_index table R !! lower (role_color R v))).
Proof.
  intros Hnd. rewrite role_index_eq. split.
  - intros c k (v & Hin & Hv)%build_index_Some.
    exists v. split; [by apply getitem_unique | done].
  - intros k v Hin%getitem_Some_elem.
    apply build_index_is_Some. by exists k, v.
Qed.

Lemma reverse_index_inverts_table_witness :
  ∃ v, getitem LACCD_COLOR_MAP "WLAC (West LA)" = Some v
       ∧ lower (role_color RPrimary v) = "#4169e1".
Proof.
  destruct (reverse_index_inverts_table LACCD_COLOR_MAP RPrimary) as [Hinv _].
  - apply (bool_decide_unpack _). by vm_compute.
  - apply Hinv. reflexivity.
Defined.

(** X4.  Where several institutions have the same lowercased colour for a
    role, the index of that role maps the colour to the one that comes last
    in the table. *)
Theorem reverse_index_keeps_last
    (t1 t2 : dict Palette) (k : string) (v : Palette) (R : Role) :
  (∀ k' v', (k', v') ∈ t2 →
     lower (role_color R v') ≠ lower (role_color R v)) →
  role_index (t1 ++ (k, v) :: t2) R !! lower (role_color R v) = Some k.
Proof. intros Hlast. rewrite role_index_eq. by apply build_index_last. Qed.

Lemma reverse_index_keeps_last_witness :
  ALL_ACCENTS LACCD_COLOR_MAP !! "#ffffff" = Some "LAVC (LA Valley)".
Proof.
  apply (reverse_index_keeps_last (take 8 LACCD_COLOR_MAP)
           (drop 9 LACCD_COLOR_MAP) "LAVC (LA Valley)"
           {| primary := "#00593F"; secondary := "#FFC72C";
              accent := "#FFFFFF";
              full_name := "Los Angeles Valley College" |} RAccent).
  intros k' v' Hin. vm_compute in Hin.
  apply elem_of_cons in Hin as [[= -> ->] | Hin]; [by vm_compute |].
  by apply elem_of_nil in Hin.
Defined.

(** ** Whole texts: what a pass changes and what it keeps *)

Lemma subst_pieces_no_token g ps : tokens ps = [] → subst_pieces g ps = ps.
Proof.
  induction ps as [|[c|m] ps IH]; [done | | done].
  intros H. rewrite subst_pieces_Lit. f_equal. by apply IH.
Qed.

Lemma subst_pieces_same_place g ps :
  Forall2 piece_same_place ps (subst_pieces g ps).
Proof. induction ps as [|[c|m] ps IH]; by constructor. Qed.

Lemma join_subst_length g ps :
  (∀ m, hex_token m = true → hex_token (g m) = true) →
  Forall (λ q, match q with Matched m => hex_token m = true | Lit _ => True end)
         ps →
  String.length (join (subst_pieces g ps)) = String.length (join ps).
Proof.
  intros Hg Hps. induction Hps as [|[c|m] ps Hq _ IH]; [done | |].
  - rewrite subst_pieces_Lit. simpl. by rewrite IH.
  - rewrite subst_pieces_Matched. cbn [join].
    rewrite !string_app_length, IH.
    by rewrite (hex_token_length m Hq), (hex_token_length (g m) (Hg m Hq)).
Qed.

Lemma subst_pieces_app g ps qs :
  subst_pieces g (ps ++ qs) = subst_pieces g ps ++ subst_pieces g qs.
Proof. apply fmap_app. Qed.

Lemma tokens_app ps qs : tokens (ps ++ qs) = tokens ps ++ tokens qs.
Proof. apply omap_app. Qed.

Lemma join_app ps qs : join (ps ++ qs) = join ps +:+ join qs.
Proof.
  induction ps as [|[c|m] ps IH]; [done | |]; cbn [app join].
  - by rewrite IH.
  - rewrite IH. clear. induction m as [|c m IH]; [done |].
    by rewrite !string_app_cons, IH.
Qed.

Lemma string_app_assoc s t u : (s +:+ t) +:+ u = s +:+ t +:+ u.
Proof.
  induction s as [|c s IH]; [done |]. by rewrite !string_app_cons, IH.
Qed.

Lemma hexrun_app n s t :
  hexrun 1 t = false → hexrun (S n) (s +:+ t) = hexrun (S n) s.
Proof.
  intros Ht. revert s. induction n as [|n IH]; intros [|c s].
  - by rewrite string_app_nil_l.
  - rewrite string_app_cons. by cbn [hexrun].
  - rewrite string_app_nil_l. destruct t as [|d t]; [done |].
    cbn [hexrun] in Ht |- *. rewrite andb_true_r in Ht. by rewrite Ht.
  - rewrite string_app_cons. cbn [hexrun]. f_equal. apply IH.
Qed.

(** Joined at a character that is no hexadecimal digit, two texts are cut
    into pieces independently. *)
Lemma scan_app s t :
  hexrun 1 t = false → scan (s +:+ t) = scan s ++ scan t.
Proof.
  intros Ht.
  induction s as [| c s Hst IH | m s Hm IH] using scan_ind; [done | |].
  - rewrite string_app_cons, !scan_Lit, IH; [done | done |].
    rewrite starts_token_cons in Hst |- *. by rewrite hexrun_app.
  - rewrite string_app_assoc.
    by rewrite (scan_Matched m (s +:+ t)), (scan_Matched m s), IH.
Qed.

Section Passes.
Context (table : dict Palette) (target : string) (p : Palette).
Hypothesis target_registered : getitem table target = Some p.

Local Abbreviation rc mode := (replace_color table target p mode).

(** The tokens of the output are the replacements of the tokens of the
    input, one for one and in the same order. *)
Lemma matches_after_pass mode html :
  palette_wf p →
  matches (join (subst_pieces (λ m, (rc mode m []).1) (scan html)))
  = (λ m, (rc mode m []).1) <$> matches html.
Proof.
  intros Hwf. unfold matches.
  rewrite scan_subst by (intros m; by apply replace_color_token).
  apply tokens_subst.
Qed.

Lemma replace_all_records ms :
  ms ≫= (λ m, (rc true m []).2)
  = (λ m, "Color: " +:+ lower m +:+ " -> " +:+ primary p)
      <$> filter (λ m, ¬ own_color p (lower m)) ms.
Proof.
  induction ms as [|m ms IH]; [done |].
  rewrite bind_cons, filter_cons, IH.
  destruct (decide (own_color p (lower m))) as [Hown | Hown].
  - rewrite replace_color_own by done.
    by rewrite decide_False by (intros H; by apply H).
  - rewrite replace_color_all by done. by rewrite decide_True.
Qed.

Lemma replace_all_texts ps :
  subst_pieces (λ m, (rc true m []).1) ps
  = subst_pieces (λ m, if decide (own_color p (lower m)) then m
                       else primary p) ps.
Proof.
  induction ps as [|[c|m] ps IH]; [done | |].
  - by rewrite !subst_pieces_Lit, IH.
  - rewrite !subst_pieces_Matched, IH. do 2 f_equal.
    case_decide as Hown.
    + by rewrite replace_color_own.
    + by rewrite replace_color_all.
Qed.

Lemma known_only_records_le ms :
  length (ms ≫= (λ m, (rc false m []).2))
  ≤ length (ms ≫= (λ m, (rc true m []).2)).
Proof.
  induction ms as [|m ms IH]; [done |].
  rewrite !bind_cons, !length_app.
  destruct (decide (own_color p (lower m))) as [Hown | Hown].
  - by rewrite !replace_color_own by done.
  - rewrite (replace_color_all _ _ _ m []) by done.
    destruct (replace_color_cases table target p false m)
      as [-> | (r & rec & -> & _)]; simpl; lia.
Qed.
End Passes.

(** X5.  A text in which the pattern matches nowhere comes back as it is
    with an empty change list, in either mode, for every registered
    target. *)
Theorem text_without_tokens_unchanged
    (table : dict Palette) (target : string) (p : Palette) (mode : bool)
    (html : string) :
  getitem table target = Some p →
  matches html = [] →
  replace_colors table html target mode = Ok html [].
Proof.
  intros Hp Hnone. rewrite (replace_colors_registered _ _ _ _ Hp), Hnone.
  by rewrite subst_pieces_no_token, join_scan.
Qed.

Lemma text_without_tokens_unchanged_witness :
  replace_colors LACCD_COLOR_MAP "<p style='color:#fff'>#12345 #zzzzzz</p>"
    "LAPC (LA Pierce)" true
  = Ok "<p style='color:#fff'>#12345 #zzzzzz</p>" [].
Proof.
  apply (text_without_tokens_unchanged LACCD_COLOR_MAP "LAPC (LA Pierce)"
           {| primary := "#BF2116"; secondary := "#1F1F1F";
              accent := "#FFFFFF";
              full_name := "Los Angeles Pierce College" |});
    reflexivity.
Defined.

(** X6.  A pass keeps the length of the text and the number of colour
    tokens in it (registered target whose colours are colour tokens, either
    mode). *)
Theorem pass_preserves_length
    (table : dict Palette) (target : string) (p : Palette) (mode : bool)
    (html : string) :
  getitem table target = Some p →
  palette_wf p →
  ∃ out log,
    replace_colors table html target mode = Ok out log
    ∧ String.length out = String.length html
    ∧ length (matches out) = length (matches html).
Proof.
  intros Hp Hwf. eexists _, _.
  split; [apply (replace_colors_registered _ _ _ _ Hp) |]. split.
  - rewrite join_subst_length; [by rewrite join_scan | | apply scan_tokens].
    intros m. by apply replace_color_token.
  - by rewrite matches_after_pass, length_fmap.
Qed.

Lemma pass_preserves_length_witness :
  ∃ out log,
    replace_colors LACCD_COLOR_MAP "h1{color:#C13C40;border:#ffc72c}"
      "WLAC (West LA)" false = Ok out log
    ∧ String.length out = String.length "h1{color:#C13C40;border:#ffc72c}"
    ∧ length (matches out)
      = length (matches "h1{color:#C13C40;border:#ffc72c}").
Proof.
  apply (pass_preserves_length LACCD_COLOR_MAP "WLAC (West LA)"
           {| primary := "#4169E1"; secondary := "#003594";
              accent := "#FFD700";
              full_name := "West Los Angeles College" |});
    [reflexivity | by vm_compute].
Defined.

(** X7.  A pass changes nothing outside the colour tokens: cut into copied
    characters and matches, the output has the same characters at the same
    places as the input and a match wherever the input has one. *)
Theorem pass_touches_only_tokens
    (table : dict Palette) (target : string) (p : Palette) (mode : bool)
    (html : string) :
  getitem table target = Some p →
  palette_wf p →
  ∃ out log,
    replace_colors table html target mode = Ok out log
    ∧ Forall2 piece_same_place (scan html) (scan out).
Proof.
  intros Hp Hwf. eexists _, _.
  split; [apply (replace_colors_registered _ _ _ _ Hp) |].
  rewrite scan_subst by (intros m; by apply replace_color_token).
  apply subst_pieces_same_place.
Qed.

Lemma pass_touches_only_tokens_witness :
  ∃ out log,
    replace_colors LACCD_COLOR_MAP "<b style='color:#5F7FE2'>Hi #1</b>"
      "LAMC (LA Mission)" true = Ok out log
    ∧ Forall2 piece_same_place
        (scan "<b style='color:#5F7FE2'>Hi #1</b>") (scan out).
Proof.
  apply (pass_touches_only_tokens LACCD_COLOR_MAP "LAMC (LA Mission)"
           {| primary := "#004590"; secondary := "#FF611A";
              accent := "#718089";
              full_name := "Los Angeles Mission College" |});
    [reflexivity | by vm_compute].
Defined.

(** X8.  The replace-all mode is idempotent as well: run again on its own
    output it returns that text with an empty change list (registered
    target whose colours are colour tokens). *)
Theorem replace_all_idempotent
    (table : dict Palette) (target : string) (p : Palette) (T : string) :
  getitem table target = Some p →
  palette_wf p →
  ∃ T' log,
    replace_colors table T target true = Ok T' log
    ∧ replace_colors table T' target true = Ok T' [].
Proof.
  intros Hp Hwf. eexists _, _. split.
  - apply (replace_colors_registered _ _ _ _ Hp).
  - by apply replace_colors_settled.
Qed.

Lemma replace_all_idempotent_witness :
  ∃ T' log,
    replace_colors LACCD_COLOR_MAP "a{color:#abcdef} b{color:#BF2116}"
      "LAPC (LA Pierce)" true = Ok T' log
    ∧ replace_colors LACCD_COLOR_MAP T' "LAPC (LA Pierce)" true = Ok T' [].
Proof.
  apply (replace_all_idempotent LACCD_COLOR_MAP "LAPC (LA Pierce)"
           {| primary := "#BF2116"; secondary := "#1F1F1F";
              accent := "#FFFFFF";
              full_name := "Los Angeles Pierce College" |});
    [reflexivity | by vm_compute].
Defined.

(** X9.  After a pass in the replace-all mode every colour token of the
    text is, up to letter case, one of the target's three colours
    (registered target whose colours are colour tokens). *)
Theorem replace_all_leaves_only_target_colours
    (table : dict Palette) (target : string) (p : Palette) (html : string) :
  getitem table target = Some p →
  palette_wf p →
  ∃ out log,
    replace_colors table html target true = Ok out log
    ∧ ∀ m, m ∈ matches out → own_color p (lower m).
Proof.
  intros Hp Hwf. eexists _, _.
  split; [apply (replace_colors_registered _ _ _ _ Hp) |].
  intros m'. rewrite matches_after_pass by done.
  intros (m & -> & _)%list_elem_of_fmap.
  destruct (decide (own_color p (lower m))) as [Hown | Hown].
  - by rewrite replace_color_own.
  - rewrite replace_color_all by done. by left.
Qed.

Lemma replace_all_leaves_only_target_colours_witness :
  ∃ out log,
    replace_colors LACCD_COLOR_MAP "a{color:#abcdef} b{color:#bf2116}"
      "LAPC (LA Pierce)" true = Ok out log
    ∧ ∀ m, m ∈ matches out
        → own_color {| primary := "#BF2116"; secondary := "#1F1F1F";
                       accent := "#FFFFFF";
                       full_name := "Los Angeles Pierce College" |}
                    (lower m).
Proof.
  apply (replace_all_leaves_only_target_colours LACCD_COLOR_MAP
           "LAPC (LA Pierce)");
    [reflexivity | by vm_compute].
Defined.

(** X10.  After a pass in the conservative mode no colour of another
    institution is left: every colour token of the output whose lowercase
    form is in [ALL_SOURCE_COLORS] is one of the target's three colours
    (ids unique, registered target whose colours are colour tokens). *)
Theorem known_only_leaves_no_foreign_colour
    (table : dict Palette) (target : string) (p : Palette) (html : string) :
  NoDup table.*1 →
  getitem table target = Some p →
  palette_wf p →
  ∃ out log,
    replace_colors table html target false = Ok out log
    ∧ ∀ m, m ∈ matches out → lower m ∈ ALL_SOURCE_COLORS table →
           own_color p (lower m).
Proof.
  intros Hnd Hp Hwf. eexists _, _.
  split; [apply (replace_colors_registered _ _ _ _ Hp) |].
  intros m'. rewrite matches_after_pass by done.
  intros (m & -> & _)%list_elem_of_fmap.
  destruct (replace_color_cases table target p false m)
    as [Heq | (r & rec & Heq & _)]; rewrite Heq; simpl.
  - intros Hknown.
    destruct (decide (own_color p (lower m))) as [Hown | Hown]; [done |].
    destruct (replace_color_known table target p m [] Hnd Hp Hknown Hown)
      as (R & J & _ & Heq').
    rewrite Heq in Heq'. by injection Heq'.
  - intros _. unfold own_color. destruct r; simpl; auto.
Qed.

Lemma known_only_leaves_no_foreign_colour_witness :
  ∃ out log,
    replace_colors LACCD_COLOR_MAP "a{color:#ffc72c;border:#112844}"
      "LAPC (LA Pierce)" false = Ok out log
    ∧ ∀ m, m ∈ matches out → lower m ∈ ALL_SOURCE_COLORS LACCD_COLOR_MAP →
        own_color {| primary := "#BF2116"; secondary := "#1F1F1F";
                     accent := "#FFFFFF";
                     full_name := "Los Angeles Pierce College" |}
                  (lower m).
Proof.
  apply (known_only_leaves_no_foreign_colour LACCD_COLOR_MAP
           "LAPC (LA Pierce)").
  - apply (bool_decide_unpack _). by vm_compute.
  - reflexivity.
  - by vm_compute.
Defined.

(** X11.  The conservative mode never records more than the replace-all
    mode does on the same text and target: every token it replaces the
    replace-all mode replaces too. *)
Theorem known_only_records_no_more
    (table : dict Palette) (target : string) (p : Palette) (html : string) :
  getitem table target = Some p →
  ∃ out_known log_known out_all log_all,
    replace_colors table html target false = Ok out_known log_known
    ∧ replace_colors table html target true = Ok out_all log_all
    ∧ length log_known ≤ length log_all.
Proof.
  intros Hp. eexists _, _, _, _.
  split; [apply (replace_colors_registered _ _ _ _ Hp) |].
  split; [apply (replace_colors_registered _ _ _ _ Hp) |].
  apply known_only_records_le.
Qed.

Lemma known_only_records_no_more_witness :
  ∃ out_known log_known out_all log_all,
    replace_colors LACCD_COLOR_MAP "a{color:#ffc72c;border:#abcdef}"
      "LAPC (LA Pierce)" false = Ok out_known log_known
    ∧ replace_colors LACCD_COLOR_MAP "a{color:#ffc72c;border:#abcdef}"
        "LAPC (LA Pierce)" true = Ok out_all log_all
    ∧ length log_known ≤ length log_all.
Proof.
  apply (known_only_records_no_more LACCD_COLOR_MAP "LAPC (LA Pierce)"
           {| primary := "#BF2116"; secondary := "#1F1F1F";
              accent := "#FFFFFF";
              full_name := "Los Angeles Pierce College" |}).
  reflexivity.
Defined.

(** X12.  What the replace-all mode returns, in closed form: the text with
    every token that is none of the target's colours replaced by the
    target's stored primary colour and every other character kept, and one
    record ["Color: <lowercase token> -> <primary>"] for each replaced
    token, in the order of the tokens in the text. *)
Theorem replace_all_closed_form
    (table : dict Palette) (target : string) (p : Palette) (html : string) :
  getitem table target = Some p →
  replace_colors table html target true
  = Ok (join (subst_pieces
                (λ m, if decide (own_color p (lower m)) then m else primary p)
                (scan html)))
       ((λ m, "Color: " +:+ lower m +:+ " -> " +:+ primary p)
          <$> filter (λ m, ¬ own_color p (lower m)) (matches html)).
Proof.
  intros Hp. rewrite (replace_colors_registered _ _ _ _ Hp).
  by rewrite replace_all_texts, replace_all_records.
Qed.

Lemma replace_all_closed_form_witness :
  replace_colors LACCD_COLOR_MAP "a{color:#FFC72C;border:#bf2116;x:#0A0b0C}"
    "LAPC (LA Pierce)" true
  = Ok "a{color:#BF2116;border:#bf2116;x:#BF2116}"
       ["Color: #ffc72c -> #BF2116"; "Color: #0a0b0c -> #BF2116"].
Proof.
  rewrite (replace_all_closed_form LACCD_COLOR_MAP "LAPC (LA Pierce)"
             {| primary := "#BF2116"; secondary := "#1F1F1F";
                accent := "#FFFFFF";
                full_name := "Los Angeles Pierce College" |});
    reflexivity.
Defined.

(** X13.  Two texts joined where the second does not begin with a
    hexadecimal digit are rewritten independently: the result for the
    concatenation is the concatenation of the two output texts and of the
    two change lists (registered target, either mode). *)
Theorem pass_distributes_over_concatenation
    (table : dict Palette) (target : string) (p : Palette) (mode : bool)
    (s t : string) :
  getitem table target = Some p →
  hexrun 1 t = false →
  ∃ out_s log_s out_t log_t,
    replace_colors table s target mode = Ok out_s log_s
    ∧ replace_colors table t target mode = Ok out_t log_t
    ∧ replace_colors table (s +:+ t) target mode
      = Ok (out_s +:+ out_t) (log_s ++ log_t).
Proof.
  intros Hp Ht. eexists _, _, _, _.
  split; [apply (replace_colors_registered _ _ _ _ Hp) |].
  split; [apply (replace_colors_registered _ _ _ _ Hp) |].
  rewrite (replace_colors_registered _ _ _ _ Hp). unfold matches.
  rewrite scan_app by done.
  by rewrite subst_pieces_app, join_app, tokens_app, bind_app.
Qed.

Lemma pass_distributes_over_concatenation_witness :
  ∃ out_s log_s out_t log_t,
    replace_colors LACCD_COLOR_MAP "a{color:#ffc72c" "LAPC (LA Pierce)" false
      = Ok out_s log_s
    ∧ replace_colors LACCD_COLOR_MAP ";border:#005A95}" "LAPC (LA Pierce)"
        false = Ok out_t log_t
    ∧ replace_colors LACCD_COLOR_MAP ("a{color:#ffc72c" +:+ ";border:#005A95}")
        "LAPC (LA Pierce)" false
      = Ok (out_s +:+ out_t) (log_s ++ log_t).
Proof.
  apply (pass_distributes_over_concatenation LACCD_COLOR_MAP
           "LAPC (LA Pierce)"
           {| primary := "#BF2116"; secondary := "#1F1F1F";
              accent := "#FFFFFF";
              full_name := "Los Angeles Pierce College" |});
    reflexivity.
Defined.

(** * Authentication *)

Section AuthFacts.
Context {obj : Type} (obj_truthy : obj → bool).
Context (environ : gmap string string).
Context (post : request obj → outcome (response obj)).

Local Abbreviation no_key_reply :=
  (Returns [("error", @PStr obj "Firebase API key not configured")]).

Lemma set_default_lookup k v (ss : gmap string (pyval obj)) k' :
  set_default k v ss !! k'
  = if decide (k = k') then Some (default v (ss !! k)) else ss !! k'.
Proof.
  unfold set_default. destruct (ss !! k) as [x|] eqn:Hk.
  - case_decide; [by subst | done].
  - rewrite lookup_insert. by case_decide.
Qed.

Lemma except_request_exception_safe {A} (body : outcome A) handler e :
  (∀ msg e', handler msg ≠ Raises e') →
  except_request_exception body handler = Raises e →
  ∀ msg, e ≠ External true msg.
Proof.
  intros Hh. destruct body as [a | [| [] m]]; simpl; try done.
  - by intros [= <-].
  - intros H. by apply Hh in H.
  - by intros [= <-].
Qed.
End AuthFacts.

Section AuthReplies.
Context {obj : Type} (obj_truthy : obj → bool).
Context (environ : gmap string string).
Context (post : request obj → outcome (response obj)).
Context (ss : gmap string (pyval obj)).

Lemma no_api_key_falsy :
  no_api_key obj_truthy environ ss → truthy obj_truthy (get_firebase_api_key obj_truthy environ ss)
               = false.
Proof.
  intros [Henv Hss]. unfold get_firebase_api_key.
  destruct Henv as [-> | ->]; simpl;
    (destruct (ss !! "firebase_api_key") as [v|] eqn:Hv; [by apply Hss | done]).
Qed.

(** What the sign-in call does once a key is configured. *)
Lemma sign_in_with_key email password :
  truthy obj_truthy (get_firebase_api_key obj_truthy environ ss) = true →
  sign_in_with_email_password obj_truthy environ post ss email password
  = except_request_exception
      (response ← post
         {| url := [FText (FIREBASE_AUTH_URL +:+ ":signInWithPassword?key=");
                    FValue (get_firebase_api_key obj_truthy environ ss)];
            payload := [("email", PStr email); ("password", PStr password);
                        ("returnSecureToken", PBool true)];
            as_json := true |};
       data ← json response;
       if bool_decide (status_code response = 200%Z) then
         localId ← py_get data "localId" PNone;
         email' ← py_get data "email" PNone;
         idToken ← py_get data "idToken" PNone;
         refreshToken ← py_get data "refreshToken" PNone;
         expiresIn ← py_get data "expiresIn" PNone;
         Returns [("success", PBool true); ("user_id", localId);
                  ("email", email'); ("id_token", idToken);
                  ("refresh_token", refreshToken); ("expires_in", expiresIn)]
       else
         error ← py_get data "error" (PDict []);
         error_message ← py_get error "message" (PStr "Unknown error");
         Returns [("success", PBool false); ("error", error_message)])
      (λ e, Returns [("success", PBool false); ("error", PStr e)]).
Proof. intros Hkey. unfold sign_in_with_email_password. by rewrite Hkey. Qed.

(** A reply that says success comes from a status 200 with a JSON object. *)
Lemma sign_in_success_inv email password result :
  sign_in_with_email_password obj_truthy environ post ss email password
  = Returns result →
  truthy obj_truthy (dict_get result "success" PNone) = true →
  ∃ resp items,
    post {| url := [FText (FIREBASE_AUTH_URL +:+ ":signInWithPassword?key=");
                    FValue (get_firebase_api_key obj_truthy environ ss)];
            payload := [("email", PStr email); ("password", PStr password);
                        ("returnSecureToken", PBool true)];
            as_json := true |} = Returns resp
    ∧ status_code resp = 200%Z
    ∧ json resp = Returns (PDict items)
    ∧ result = [("success", PBool true);
                ("user_id", dict_get items "localId" PNone);
                ("email", dict_get items "email" PNone);
                ("id_token", dict_get items "idToken" PNone);
                ("refresh_token", dict_get items "refreshToken" PNone);
                ("expires_in", dict_get items "expiresIn" PNone)].
Proof.
  destruct (truthy obj_truthy (get_firebase_api_key obj_truthy environ ss))
    eqn:Hkey.
  2: { unfold sign_in_with_email_password. rewrite Hkey. simpl.
       by intros [= <-]. }
  rewrite sign_in_with_key by done.
  destruct (post _) as [resp | [| [] msg]] eqn:Hpost; simpl;
    [| done | by intros [= <-] | done].
  destruct (json resp) as [data | [| [] msg]] eqn:Hjson; simpl;
    [| done | by intros [= <-] | done].
  case_bool_decide as Hstatus.
  - destruct data as [| b | s | items | o]; simpl; try done.
    intros [= <-] _. by exists resp, items.
  - destruct data as [| b | s | items | o]; simpl; try done.
    destruct (dict_get items "error" (PDict [])) as [| b | s | items' | o];
      simpl; try done.
    by intros [= <-].
Qed.
End AuthReplies.

(** X14.  Without an API key (none or an empty one in the environment, and
    none that counts as true in the session state) each of the four calls
    to the identity service answers [{"error": "Firebase API key not
    configured"}] and sends no request: the answer is the same whatever
    [requests.post] would do. *)
Theorem no_api_key_no_request
    {obj : Type} (obj_truthy : obj → bool) (environ : gmap string string)
    (post : request obj → outcome (response obj))
    (ss : gmap string (pyval obj)) (email password refresh_token : string) :
  no_api_key obj_truthy environ ss →
  let reply := Returns [("error", PStr "Firebase API key not configured")] in
  sign_in_with_email_password obj_truthy environ post ss email password = reply
  ∧ sign_up_with_email_password obj_truthy environ post ss email password
    = reply
  ∧ send_password_reset obj_truthy environ post ss email = reply
  ∧ refresh_id_token obj_truthy environ post ss refresh_token = reply.
Proof.
  intros Hkey%no_api_key_falsy.
  unfold sign_in_with_email_password, sign_up_with_email_password,
    send_password_reset, refresh_id_token.
  by rewrite Hkey.
Qed.

Lemma no_api_key_no_request_witness :
  sign_in_with_email_password (λ n : Z, bool_decide (n ≠ 0%Z))
    {["FIREBASE_API_KEY" := ""]} (λ _, Raises AttributeError)
    {["firebase_api_key" := POther 0%Z]} "a@b.edu" "secret"
  = Returns [("error", PStr "Firebase API key not configured")].
Proof.
  refine (proj1 (no_api_key_no_request _ _ _ _ "a@b.edu" "secret" "" _)).
  split; [by right |].
  intros v. rewrite lookup_singleton_eq. by intros [= <-].
Defined.

(** X15.  Without an API key [login] returns [False], leaves the session
    state as it was and shows "Login failed: Firebase API key not
    configured". *)
Theorem login_without_api_key
    {obj : Type} (obj_truthy : obj → bool) (environ : gmap string string)
    (post : request obj → outcome (response obj))
    (email password : string) (st : state obj) :
  no_api_key obj_truthy environ (session_state st) →
  login obj_truthy environ post email password st
  = (Returns false,
     {| session_state := session_state st;
        shown := shown st
                 ++ [StError [FText "Login failed: ";
                              FValue (PStr "Firebase API key not configured")]]
     |}).
Proof.
  intros Hkey%no_api_key_falsy. unfold login, sign_in_with_email_password.
  by rewrite Hkey.
Qed.

Lemma login_without_api_key_witness :
  login (λ n : Z, bool_decide (n ≠ 0%Z)) ∅ (λ _, Raises AttributeError)
    "a@b.edu" "secret" {| session_state := ∅; shown := [] |}
  = (Returns false,
     {| session_state := ∅;
        shown := [StError [FText "Login failed: ";
                           FValue (PStr "Firebase API key not configured")]]
     |}).
Proof.
  apply (login_without_api_key _ ∅ _ "a@b.edu" "secret"
           {| session_state := ∅; shown := [] |}).
  split; [by left | by intros v ?].
Defined.

(** X16.  No [requests.RequestException] escapes any of the four calls:
    whatever [requests.post] or [response.json()] raise of that class is
    turned into a reply, so an exception that does escape is of another
    class. *)
Theorem request_exception_never_escapes
    {obj : Type} (obj_truthy : obj → bool) (environ : gmap string string)
    (post : request obj → outcome (response obj))
    (ss : gmap string (pyval obj)) (email password refresh_token : string)
    (e : exn) :
  sign_in_with_email_password obj_truthy environ post ss email password
    = Raises e
  ∨ sign_up_with_email_password obj_truthy environ post ss email password
    = Raises e
  ∨ send_password_reset obj_truthy environ post ss email = Raises e
  ∨ refresh_id_token obj_truthy environ post ss refresh_token = Raises e →
  ∀ message, e ≠ External true message.
Proof.
  unfold sign_in_with_email_password, sign_up_with_email_password,
    send_password_reset, refresh_id_token.
  destruct (truthy obj_truthy (get_firebase_api_key obj_truthy environ ss));
    simpl; [| by intros [? | [? | [? | ?]]]].
  intros [H | [H | [H | H]]];
    (eapply except_request_exception_safe; [| exact H]; done).
Qed.

Lemma request_exception_never_escapes_witness :
  sign_in_with_email_password (λ n : Z, bool_decide (n ≠ 0%Z))
    {["FIREBASE_API_KEY" := "key"]}
    (λ _, Returns {| status_code := 200; json := Returns (PStr "ok") |})
    ∅ "a@b.edu" "secret" = Raises AttributeError
  ∧ AttributeError ≠ External true "timed out".
Proof.
  split; [reflexivity |].
  apply (request_exception_never_escapes (λ n : Z, bool_decide (n ≠ 0%Z))
           {["FIREBASE_API_KEY" := "key"]}
           (λ _, Returns {| status_code := 200; json := Returns (PStr "ok") |})
           ∅ "a@b.edu" "secret" "").
  left. reflexivity.
Defined.

(** X17.  When the request fails with a [requests.RequestException],
    [login] returns [False], leaves the session state as it was and shows
    "Login failed: " followed by the text of the exception (a key being
    configured). *)
Theorem login_network_failure
    {obj : Type} (obj_truthy : obj → bool) (environ : gmap string string)
    (post : request obj → outcome (response obj))
    (email password message : string) (st : state obj) :
  truthy obj_truthy
    (get_firebase_api_key obj_truthy environ (session_state st)) = true →
  post {| url := [FText (FIREBASE_AUTH_URL +:+ ":signInWithPassword?key=");
                  FValue (get_firebase_api_key obj_truthy environ
                            (session_state st))];
          payload := [("email", PStr email); ("password", PStr password);
                      ("returnSecureToken", PBool true)];
          as_json := true |} = Raises (External true message) →
  login obj_truthy environ post email password st
  = (Returns false,
     {| session_state := session_state st;
        shown := shown st
                 ++ [StError [FText "Login failed: "; FValue (PStr message)]]
     |}).
Proof.
  intros Hkey Hpost. unfold login.
  by rewrite sign_in_with_key, Hpost.
Qed.

Lemma login_network_failure_witness :
  login (λ n : Z, bool_decide (n ≠ 0%Z)) {["FIREBASE_API_KEY" := "key"]}
    (λ _, Raises (External true "Connection refused"))
    "a@b.edu" "secret" {| session_state := ∅; shown := [] |}
  = (Returns false,
     {| session_state := ∅;
        shown := [StError [FText "Login failed: ";
                           FValue (PStr "Connection refused")]] |}).
Proof.
  apply (login_network_failure _ {["FIREBASE_API_KEY" := "key"]} _
           "a@b.edu" "secret" "Connection refused"
           {| session_state := ∅; shown := [] |}); reflexivity.
Defined.

(** X18.  [login] returns [True] only when the sign-in request came back
    with status 200 and a JSON object; the session state then says
    authenticated and holds the object's [email], [localId], [idToken] and
    [refreshToken] (or [None] for a missing one) under [user_email],
    [user_id], [id_token] and [refresh_token]; every other entry of the
    session state is kept and nothing is shown. *)
Theorem login_success
    {obj : Type} (obj_truthy : obj → bool) (environ : gmap string string)
    (post : request obj → outcome (response obj))
    (email password : string) (st st' : state obj) :
  login obj_truthy environ post email password st = (Returns true, st') →
  ∃ resp items,
    post {| url := [FText (FIREBASE_AUTH_URL +:+ ":signInWithPassword?key=");
                    FValue (get_firebase_api_key obj_truthy environ
                              (session_state st))];
            payload := [("email", PStr email); ("password", PStr password);
                        ("returnSecureToken", PBool true)];
            as_json := true |} = Returns resp
    ∧ status_code resp = 200%Z
    ∧ json resp = Returns (PDict items)
    ∧ is_authenticated (session_state st') = PBool true
    ∧ session_state st' !! "user_email"
      = Some (dict_get items "email" PNone)
    ∧ session_state st' !! "user_id"
      = Some (dict_get items "localId" PNone)
    ∧ session_state st' !! "id_token"
      = Some (dict_get items "idToken" PNone)
    ∧ session_state st' !! "refresh_token"
      = Some (dict_get items "refreshToken" PNone)
    ∧ (∀ k, k ∉ ["authenticated"; "user_email"; "user_id"; "id_token";
                 "refresh_token"] →
            session_state st' !! k = session_state st !! k)
    ∧ shown st' = shown st.
Proof.
  unfold login.
  destruct (sign_in_with_email_password _ _ _ _ _ _) as [result | e] eqn:Hsign;
    [| done].
  destruct (truthy obj_truthy (dict_get result "success" PNone)) eqn:Hok;
    [| done].
  destruct (sign_in_success_inv _ _ _ _ _ _ _ Hsign Hok)
    as (resp & items & Hpost & Hstatus & Hjson & ->).
  intros [= <-]. exists resp, items. unfold is_authenticated.
  cbn [session_state shown].
  do 3 (split; [done |]).
  repeat (split;
    [by rewrite ?lookup_insert_ne by done; rewrite lookup_insert_eq |]).
  split; [| done].
  intros k Hk. rewrite !lookup_insert_ne; [done | | | | |];
    intros <-; apply Hk; set_solver.
Qed.

Lemma login_success_witness :
  ∃ (resp : response Z) (items : list (string * pyval Z)),
    status_code resp = 200%Z
    ∧ json resp = Returns (PDict items)
    ∧ dict_get items "email" PNone = PStr "a@b.edu"
    ∧ dict_get items "idToken" PNone = PNone.
Proof.
  edestruct (login_success (λ n : Z, bool_decide (n ≠ 0%Z))
              {["FIREBASE_API_KEY" := "key"]}
              (λ _, Returns {| status_code := 200;
                               json := Returns
                                 (PDict [("email", PStr "a@b.edu");
                                         ("localId", PStr "u1")]) |})
              "a@b.edu" "secret" {| session_state := ∅; shown := [] |})
    as (resp & items & Hpost & Hstatus & Hjson & _); [reflexivity |].
  exists resp, items. injection Hpost as <-. simpl in Hjson.
  injection Hjson as <-. by repeat split.
Defined.

(** X19.  Unless it returns [True], [login] leaves the session state
    exactly as it was, also when an exception escapes. *)
Theorem login_failure_keeps_session
    {obj : Type} (obj_truthy : obj → bool) (environ : gmap string string)
    (post : request obj → outcome (response obj))
    (email password : string) (st st' : state obj) (r : outcome bool) :
  login obj_truthy environ post email password st = (r, st') →
  r ≠ Returns true →
  session_state st' = session_state st.
Proof.
  unfold login.
  destruct (sign_in_with_email_password _ _ _ _ _ _) as [result | e];
    [| by intros [= <- <-]].
  destruct (truthy obj_truthy (dict_get result "success" PNone));
    by intros [= <- <-].
Qed.

Lemma login_failure_keeps_session_witness :
  session_state
    (login (λ n : Z, bool_decide (n ≠ 0%Z)) {["FIREBASE_API_KEY" := "key"]}
       (λ _, Returns {| status_code := 400;
                        json := Returns
                          (PDict [("error",
                                   PDict [("message",
                                           PStr "INVALID_PASSWORD")])]) |})
       "a@b.edu" "wrong"
       {| session_state := {["authenticated" := PBool false]};
          shown := [] |}).2
  = {["authenticated" := PBool false]}.
Proof.
  exact (login_failure_keeps_session (λ n : Z, bool_decide (n ≠ 0%Z))
           {["FIREBASE_API_KEY" := "key"]}
           (λ _, Returns {| status_code := 400;
                            json := Returns
                              (PDict [("error",
                                       PDict [("message",
                                               PStr "INVALID_PASSWORD")])]) |})
           "a@b.edu" "wrong"
           {| session_state := {["authenticated" := PBool false]};
              shown := [] |} _ (Returns false) eq_refl
           ltac:(discriminate)).
Defined.

Lemma logout_lookup {obj} (ss : gmap string (pyval obj)) k :
  logout ss !! k
  = if decide (k = "openrouter_key") then None
    else if decide (k = "canvas_token") then None
    else if decide (k = "refresh_token") then Some PNone
    else if decide (k = "id_token") then Some PNone
    else if decide (k = "user_id") then Some PNone
    else if decide (k = "user_email") then Some PNone
    else if decide (k = "authenticated") then Some (PBool false)
    else ss !! k.
Proof.
  unfold logout.
  rewrite !lookup_insert_ne by done.
  destruct (ss !! "canvas_token") eqn:Hc;
    [rewrite lookup_delete_ne by done |];
    rewrite !lookup_insert_ne by done;
    (destruct (ss !! "openrouter_key") eqn:Ho;
      [rewrite lookup_delete | ]);
    rewrite ?lookup_delete, ?lookup_insert;
    repeat case_decide; simplify_eq; done.
Qed.

Lemma logout_clears_session_lookup {obj} (ss : gmap string (pyval obj)) :
  logout ss !! "authenticated" = Some (PBool false)
  ∧ logout ss !! "user_email" = Some PNone
  ∧ logout ss !! "user_id" = Some PNone
  ∧ logout ss !! "id_token" = Some PNone
  ∧ logout ss !! "refresh_token" = Some PNone.
Proof. by rewrite !logout_lookup. Qed.

(** X20.  After [logout] nobody is authenticated, the four user entries
    are [None], the stored Canvas token and OpenRouter key are gone, and
    every other entry of the session state is as before. *)
Theorem logout_clears_session
    {obj : Type} (ss : gmap string (pyval obj)) :
  is_authenticated (logout ss) = PBool false
  ∧ logout ss !! "user_email" = Some PNone
  ∧ logout ss !! "user_id" = Some PNone
  ∧ logout ss !! "id_token" = Some PNone
  ∧ logout ss !! "refresh_token" = Some PNone
  ∧ logout ss !! "canvas_token" = None
  ∧ logout ss !! "openrouter_key" = None
  ∧ ∀ k, k ∉ ["authenticated"; "user_email"; "user_id"; "id_token";
              "refresh_token"; "canvas_token"; "openrouter_key"] →
         logout ss !! k = ss !! k.
Proof.
  pose proof (logout_lookup ss) as Hl.
  unfold is_authenticated. rewrite !Hl. simpl.
  repeat split; try done.
  intros k Hk. rewrite Hl.
  repeat case_decide; try done; subst; exfalso; apply Hk; set_solver.
Qed.

Lemma logout_clears_session_witness :
  is_authenticated
    (logout ({["authenticated" := PBool true]} : gmap string (pyval Z)))
  = PBool false.
Proof.
  exact (proj1 (logout_clears_session {["authenticated" := PBool true]})).
Defined.

Lemma init_session_state_lookup {obj} (ss : gmap string (pyval obj)) k :
  init_session_state ss !! k
  = if decide (k = "authenticated")
    then Some (default (PBool false) (ss !! k))
    else if decide (k ∈ ["user_email"; "user_id"; "id_token";
                         "refresh_token"])
    then Some (default PNone (ss !! k))
    else ss !! k.
Proof.
  unfold init_session_state. rewrite !set_default_lookup.
  repeat case_decide; subst; try done; exfalso;
    repeat match goal with
           | H : _ ∈ _ |- _ => apply elem_of_cons in H as [H | H]; [done |]
           | H : _ ∈ [] |- _ => by apply elem_of_nil in H
           | H : ¬ (_ ∈ _) |- _ => apply H; set_solver
           end.
Qed.

(** X21.  [init_session_state] only fills in what is missing: an entry
    that exists keeps its value, the five authentication entries exist
    afterwards ([authenticated] being [False] when it was missing), no
    other entry is touched, and running it twice is the same as running it
    once. *)
Theorem init_session_state_fills_defaults
    {obj : Type} (ss : gmap string (pyval obj)) :
  (∀ k v, ss !! k = Some v → init_session_state ss !! k = Some v)
  ∧ (∀ k, k ∈ ["authenticated"; "user_email"; "user_id"; "id_token";
               "refresh_token"] → is_Some (init_session_state ss !! k))
  ∧ (ss !! "authenticated" = None →
     init_session_state ss !! "authenticated" = Some (PBool false))
  ∧ (∀ k, k ∉ ["authenticated"; "user_email"; "user_id"; "id_token";
               "refresh_token"] → init_session_state ss !! k = ss !! k)
  ∧ init_session_state (init_session_state ss) = init_session_state ss.
Proof.
  split; [| split; [| split; [| split]]].
  - intros k v Hk. rewrite init_session_state_lookup, Hk.
    by repeat case_decide.
  - intros k Hk. rewrite init_session_state_lookup.
    repeat case_decide; try done.
    exfalso. apply elem_of_cons in Hk as [-> | Hk]; done.
  - intros Hk. by rewrite init_session_state_lookup, Hk.
  - intros k Hk. rewrite init_session_state_lookup.
    repeat case_decide; try done; exfalso; apply Hk;
      first [subst; by left | by right].
  - apply map_eq. intros k. rewrite !init_session_state_lookup.
    repeat case_decide; try done; by destruct (ss !! k).
Qed.

(** X22.  [init_session_state] never changes who is logged in: what
    [is_authenticated] returns is the same before and after; and right
    after [logout] it changes nothing at all. *)
Theorem init_session_state_keeps_authentication
    {obj : Type} (ss : gmap string (pyval obj)) :
  is_authenticated (init_session_state ss) = is_authenticated ss
  ∧ init_session_state (logout ss) = logout ss.
Proof.
  split.
  - unfold is_authenticated. rewrite init_session_state_lookup. simpl.
    by destruct (ss !! "authenticated").
  - apply map_eq. intros k. rewrite init_session_state_lookup.
    destruct (logout_clears_session_lookup ss) as (Ha & H1 & H2 & H3 & H4).
    repeat case_decide; subst; rewrite ?Ha; try done.
    repeat match goal with
           | H : _ ∈ _ |- _ =>
               apply elem_of_cons in H as [-> | H];
               [by rewrite ?H1, ?H2, ?H3, ?H4 |]
           | H : _ ∈ [] |- _ => by apply elem_of_nil in H
           end.
Qed.

Lemma login_true_authenticated
    {obj : Type} (obj_truthy : obj → bool) (environ : gmap string string)
    (post : request obj → outcome (response obj))
    (email password : string) (st st' : state obj) :
  login obj_truthy environ post email password st = (Returns true, st') →
  is_authenticated (session_state st') = PBool true.
Proof.
  unfold login.
  destruct (sign_in_with_email_password _ _ _ _ _ _) as [result | e];
    [| done].
  destruct (truthy obj_truthy (dict_get result "success" PNone)); [| done].
  intros [= <-]. unfold is_authenticated. cbn [session_state].
  by rewrite !lookup_insert_ne, lookup_insert_eq by done.
Qed.

(** X23.  A function wrapped by [require_auth] is not called after
    [logout], nor on a session state that [init_session_state] has just
    set up from one without an [authenticated] entry: the wrapper returns
    [None], shows the warning and leaves the session state alone, whatever
    the function is. *)
Theorem require_auth_refuses_logged_out
    {obj : Type} (obj_truthy : obj → bool) {A R : Type}
    (func : A → state obj → outcome R * state obj) (args : A)
    (ss : gmap string (pyval obj)) (sh : list (ui_event obj)) :
  require_auth obj_truthy func args {| session_state := logout ss; shown := sh |}
  = (Returns None,
     {| session_state := logout ss;
        shown := sh ++ [StWarning
                          [FText "Please log in to access this feature."]] |})
  ∧ (ss !! "authenticated" = None →
     require_auth obj_truthy func args
       {| session_state := init_session_state ss; shown := sh |}
     = (Returns None,
        {| session_state := init_session_state ss;
           shown := sh ++ [StWarning
                             [FText "Please log in to access this feature."]]
        |})).
Proof.
  split.
  - unfold require_auth, is_authenticated. cbn [session_state shown].
    by rewrite logout_lookup.
  - intros Hnone. unfold require_auth, is_authenticated.
    cbn [session_state shown].
    by rewrite init_session_state_lookup, Hnone.
Qed.

Lemma require_auth_refuses_logged_out_witness :
  require_auth (λ n : Z, bool_decide (n ≠ 0%Z))
    (λ (_ : unit) st, (Returns 1%Z, st)) ()
    {| session_state := init_session_state ∅; shown := [] |}
  = (Returns None,
     {| session_state := init_session_state ∅;
        shown := [StWarning [FText "Please log in to access this feature."]]
     |}).
Proof.
  apply (require_auth_refuses_logged_out (λ n : Z, bool_decide (n ≠ 0%Z))
           (λ (_ : unit) st, (Returns 1%Z, st)) () ∅ []).
  reflexivity.
Defined.

(** X24.  Once [login] has returned [True], a function wrapped by
    [require_auth] is called on the state [login] left, and the wrapper
    hands on what it returns or raises. *)
Theorem require_auth_admits_after_login
    {obj : Type} (obj_truthy : obj → bool) (environ : gmap string string)
    (post : request obj → outcome (response obj))
    (email password : string) (st st' : state obj) {A R : Type}
    (func : A → state obj → outcome R * state obj) (args : A) :
  login obj_truthy environ post email password st = (Returns true, st') →
  require_auth obj_truthy func args st'
  = match func args st' with
    | (Returns r, st'') => (Returns (Some r), st'')
    | (Raises e, st'') => (Raises e, st'')
    end.
Proof.
  intros Hlogin%login_true_authenticated.
  unfold require_auth. by rewrite Hlogin.
Qed.

Lemma require_auth_admits_after_login_witness :
  let logged_in :=
    (login (λ n : Z, bool_decide (n ≠ 0%Z)) {["FIREBASE_API_KEY" := "key"]}
       (λ _, Returns {| status_code := 200; json := Returns (PDict []) |})
       "a@b.edu" "secret" {| session_state := ∅; shown := [] |}).2 in
  require_auth (λ n : Z, bool_decide (n ≠ 0%Z))
    (λ (_ : unit) st, (Returns 1%Z, st)) () logged_in
  = (Returns (Some 1%Z), logged_in).
Proof.
  exact (require_auth_admits_after_login (λ n : Z, bool_decide (n ≠ 0%Z))
           {["FIREBASE_API_KEY" := "key"]}
           (λ _, Returns {| status_code := 200; json := Returns (PDict []) |})
           "a@b.edu" "secret" {| session_state := ∅; shown := [] |} _
           (λ (_ : unit) st, (Returns 1%Z, st)) () eq_refl).
Defined.

(** * The AI pass *)

Lemma chars_app s t : chars (s +:+ t) = chars s ++ chars t.
Proof.
  unfold chars. induction s as [|c s IH]; [done |].
  rewrite string_app_cons. simpl. by rewrite IH.
Qed.

Lemma of_chars_chars s : of_chars (chars s) = s.
Proof. apply String.string_of_list_ascii_of_string. Qed.

Lemma startswith_app prefix s : startswith (prefix +:+ s) prefix = true.
Proof.
  apply bool_decide_eq_true. rewrite chars_app. by apply prefix_app_r.
Qed.

Lemma endswith_app s suffix : endswith (s +:+ suffix) suffix = true.
Proof.
  apply bool_decide_eq_true. rewrite chars_app. by apply suffix_app_r.
Qed.

Lemma slice_from_app n prefix s :
  length (chars prefix) = n → slice_from n (prefix +:+ s) = s.
Proof.
  intros <-. unfold slice_from.
  by rewrite chars_app, drop_app_length, of_chars_chars.
Qed.

Lemma slice_to_last_app n s suffix :
  length (chars suffix) = n → slice_to_last n (s +:+ suffix) = s.
Proof.
  intros <-. unfold slice_to_last. rewrite chars_app, length_app.
  replace (length (chars s) + length (chars suffix) - length (chars suffix))
    with (length (chars s)) by lia.
  by rewrite take_app_length, of_chars_chars.
Qed.

Lemma startswith_other_char c s d prefix :
  c ≠ d → startswith (String c s) (String d prefix) = false.
Proof.
  intros Hne. apply bool_decide_eq_false. simpl.
  intros [k Hk]. simpl in Hk. by injection Hk as -> _.
Qed.

Lemma take_pairs {A B} (f g : A → B) (n : nat) (l : list A) :
  take (2 * n) (flat_map (λ x, [f x; g x]) l)
  = flat_map (λ x, [f x; g x]) (take n l).
Proof.
  revert l. induction n as [|n IH]; intros [|x l]; try done.
  replace (2 * S n) with (S (S (2 * n))) by lia. simpl.
  do 2 f_equal. apply IH.
Qed.

Lemma other_colleges_filter (table : list (string * Palette)) target :
  other_colleges table target
  = flat_map (λ kv, [before_space kv.1; full_name kv.2])
             (filter (λ kv, kv.1 ≠ target) table).
Proof.
  unfold other_colleges. induction table as [|kv table IH]; [done |].
  rewrite filter_cons. simpl. case_decide; simpl; by rewrite IH.
Qed.

(** X25.  [ai_polish_content] asks the service only when there is a text,
    a key and a registered target.  With an empty text, or with no key or
    an empty one, it returns the text as it is and shows nothing, even for
    a target that is not in the table; with a text and a key but a target
    that is not in the table, [KeyError] on the target escapes.  Neither
    depends on what the service would answer. *)
Theorem ai_polish_asks_only_when_it_can
    (table : dict Palette) (strip : string → string)
    (chat : chat_request → chat_reply)
    (html target : string) (key model : option string) :
  (html = EmptyString ∨ key = None ∨ key = Some EmptyString →
   ai_polish_content table strip chat html target key model
   = Polished html [])
  ∧ (∀ k, html ≠ EmptyString → key = Some k → k ≠ EmptyString →
          getitem table target = None →
          ai_polish_content table strip chat html target key model
          = PolishKeyError target).
Proof.
  unfold ai_polish_content. split.
  - intros [-> | [-> | ->]]; [by destruct key | done |].
    by destruct (bool_decide (html = EmptyString)).
  - intros k Hhtml -> Hk Hnone.
    by rewrite !bool_decide_eq_false_2, Hnone.
Qed.

Lemma ai_polish_asks_only_when_it_can_witness :
  ai_polish_content LACCD_COLOR_MAP (λ s, s)
    (λ _, ChatContent (Some "never asked")) "<p>ELAC</p>" "Nowhere College"
    (Some "") None
  = Polished "<p>ELAC</p>" []
  ∧ ai_polish_content LACCD_COLOR_MAP (λ s, s)
      (λ _, ChatContent (Some "never asked")) "<p>ELAC</p>" "Nowhere College"
      (Some "sk-1") None
    = PolishKeyError "Nowhere College".
Proof.
  destruct (ai_polish_asks_only_when_it_can LACCD_COLOR_MAP (λ s, s)
              (λ _, ChatContent (Some "never asked")) "<p>ELAC</p>"
              "Nowhere College" (Some "") None) as [Hskip _].
  destruct (ai_polish_asks_only_when_it_can LACCD_COLOR_MAP (λ s, s)
              (λ _, ChatContent (Some "never asked")) "<p>ELAC</p>"
              "Nowhere College" (Some "sk-1") None) as [_ Herr].
  split; [apply Hskip; auto | by apply (Herr "sk-1")].
Defined.

(** X26.  For a registered target, a text and a key, [ai_polish_content]
    returns either the cleaned answer of the service, showing nothing, or,
    when the call raises or the answer has no content, the text it was
    given, unchanged, with one warning "AI processing failed: ...". *)
Theorem ai_polish_falls_back_to_input
    (table : dict Palette) (strip : string → string)
    (chat : chat_request → chat_reply)
    (html target key : string) (model : option string) (p : Palette) :
  html ≠ EmptyString → key ≠ EmptyString →
  getitem table target = Some p →
  let request := {| chat_api_key := key; chat_model := model;
                    chat_system := system_prompt table target (full_name p);
                    chat_user := html; chat_max_tokens := 16000%Z |} in
  match chat request with
  | ChatContent (Some answer) =>
      ai_polish_content table strip chat html target (Some key) model
      = Polished (unfence strip answer) []
  | ChatContent None =>
      ai_polish_content table strip chat html target (Some key) model
      = Polished html ["AI processing failed: 'NoneType' object has no attribute 'startswith'"]
  | ChatRaises e =>
      ai_polish_content table strip chat html target (Some key) model
      = Polished html ["AI processing failed: " +:+ e]
  end.
Proof.
  intros Hhtml Hkey Hp. unfold ai_polish_content.
  rewrite !bool_decide_eq_false_2, Hp by done. simpl.
  by destruct (chat _) as [[answer|] | e].
Qed.

Lemma ai_polish_falls_back_to_input_witness :
  ai_polish_content LACCD_COLOR_MAP (λ s, s)
    (λ _, ChatRaises "Connection error.") "<p>Welcome to ELAC</p>"
    "LAPC (LA Pierce)" (Some "sk-1") (Some "openai/gpt-4o")
  = Polished "<p>Welcome to ELAC</p>"
      ["AI processing failed: Connection error."].
Proof.
  apply (ai_polish_falls_back_to_input LACCD_COLOR_MAP (λ s, s)
           (λ _, ChatRaises "Connection error.") "<p>Welcome to ELAC</p>"
           "LAPC (LA Pierce)" "sk-1" (Some "openai/gpt-4o")
           {| primary := "#BF2116"; secondary := "#1F1F1F";
              accent := "#FFFFFF";
              full_name := "Los Angeles Pierce College" |});
    [done | done | reflexivity].
Defined.

(** X27.  An answer wrapped in a code fence comes back without it: when
    the service answers [```html], a body that does not begin with a
    backquote, then [```], the function returns [strip] of the body; an
    answer that neither begins nor ends with [```] is returned stripped. *)
Theorem ai_polish_removes_code_fence
    (table : dict Palette) (strip : string → string)
    (chat : chat_request → chat_reply)
    (html target key : string) (model : option string) (p : Palette)
    (c : ascii) (body answer : string) :
  html ≠ EmptyString → key ≠ EmptyString →
  getitem table target = Some p →
  c ≠ "`"%char →
  let request := {| chat_api_key := key; chat_model := model;
                    chat_system := system_prompt table target (full_name p);
                    chat_user := html; chat_max_tokens := 16000%Z |} in
  (chat request = ChatContent (Some ("```html" +:+ String c body +:+ "```")) →
   ai_polish_content table strip chat html target (Some key) model
   = Polished (strip (String c body)) [])
  ∧ (chat request = ChatContent (Some answer) →
     startswith answer "```" = false → endswith answer "```" = false →
     ai_polish_content table strip chat html target (Some key) model
     = Polished (strip answer) []).
Proof.
  intros Hhtml Hkey Hp Hc. unfold ai_polish_content.
  rewrite !bool_decide_eq_false_2, Hp by done. simpl. split.
  - intros ->. unfold unfence.
    rewrite startswith_app.
    rewrite (slice_from_app 7 "```html") by done.
    rewrite string_app_cons, startswith_other_char by done.
    rewrite <- string_app_cons, endswith_app.
    by rewrite (slice_to_last_app 3 (String c body) "```").
  - intros -> Hstart Hend. unfold unfence.
    assert (startswith answer "```html" = false) as ->.
    { apply bool_decide_eq_false. intros [k Hk].
      apply bool_decide_eq_false in Hstart. apply Hstart.
      exists (chars "html" ++ k). by rewrite Hk. }
    by rewrite Hstart, Hend.
Qed.

Lemma ai_polish_removes_code_fence_witness :
  ai_polish_content LACCD_COLOR_MAP (λ s, s)
    (λ _, ChatContent (Some "```html<p>Welcome to LAPC</p>```"))
    "<p>Welcome to ELAC</p>" "LAPC (LA Pierce)" (Some "sk-1") None
  = Polished "<p>Welcome to LAPC</p>" [].
Proof.
  apply (ai_polish_removes_code_fence LACCD_COLOR_MAP (λ s, s)
           (λ _, ChatContent (Some "```html<p>Welcome to LAPC</p>```"))
           "<p>Welcome to ELAC</p>" "LAPC (LA Pierce)" "sk-1" None
           {| primary := "#BF2116"; secondary := "#1F1F1F";
              accent := "#FFFFFF";
              full_name := "Los Angeles Pierce College" |}
           "<"%char "p>Welcome to LAPC</p>" "");
    [done | done | reflexivity | done | reflexivity].
Defined.

(** X28.  The list of names that goes into the prompt is cut after ten
    entries, which are the short and the full name of the first five
    institutions of the table other than the target: an institution that
    comes later in the table is not named in the prompt. *)
Theorem prompt_names_first_five_others
    (table : list (string * Palette)) (target : string) :
  take 10 (other_colleges table target)
  = flat_map (λ kv, [before_space kv.1; full_name kv.2])
             (take 5 (filter (λ kv, kv.1 ≠ target) table)).
Proof.
  rewrite other_colleges_filter. apply (take_pairs _ _ 5).
Qed.
